(** * MIScnn: the [Neural_Network] pipeline class

    A shallow embedding of [miscnn/neural_network/model.py].  The class
    drives three pipeline stages (train, predict, evaluate) and a few
    model-management helpers on top of external collaborators: Keras, the
    batch generator, the patch reconstructor, the preprocessor's
    subfunctions and the data I/O interface.

    The collaborators are not part of the file; they are taken as
    arbitrary, possibly failing, state-dependent functions.  Every call to
    one of them is recorded as an [Event], so that statements about "what
    is called, with which arguments, in which order" become statements
    about event lists. *)

From Stdlib Require Import QArith.
From stdpp Require Import gmap strings list.
Close Scope Q_scope.

(** ** Data *)

(** Sample identifiers are Python strings. *)
Definition sample := string.

(** A NumPy array: its shape and its elements in row-major (C) order. *)
Record ndarray (A : Type) := Ndarray {
  nd_shape : list nat;
  nd_data : list A
}.
Arguments Ndarray {A} _ _.
Arguments nd_shape {A} _.
Arguments nd_data {A} _.

(** IEEE floating-point numbers.  A finite value is represented by the
    rational it denotes. *)
Inductive float :=
| NaN
| NegInf
| Finite (q : Q)
| PosInf.
Coercion Finite : Q >-> float.

(** Scores and weights are float arrays.  Labels are array indices. *)
Definition scores := ndarray float.
Definition labels := ndarray nat.

(** Python exceptions that reach the caller. *)
Inductive exn :=
| KeyError (key : string)
| ValueError (msg : string)
| ExternalError (name : string).

Inductive Res (A : Type) :=
| Ok (a : A)
| Raise (e : exn).
Arguments Ok {A} _.
Arguments Raise {A} _.

(** The batch generator object: the arguments [DataGenerator] was built
    with (the preprocessor is the pipeline's own). *)
Record DataGenerator := {
  dg_sample_list : list sample;
  dg_training : bool;
  dg_validation : bool;
  dg_shuffle : bool
}.

(** Calls to collaborators, in the order they are made. *)
Inductive Event :=
| EvCreateModel3D (input_shape : list (option nat)) (n_labels : nat)
| EvCreateModel2D (input_shape : list (option nat)) (n_labels : nat)
| EvMultiGpuModel (gpus : nat)
| EvCompile (lr : Q) (loss : string) (metrics : list string)
| EvDataGenerator (gen : DataGenerator)
| EvFitGenerator (gen : DataGenerator) (validation_data : option DataGenerator)
    (callbacks : list string) (epochs max_queue_size : nat)
| EvPredictGenerator (gen : DataGenerator) (max_queue_size : nat)
| EvShapeCachePop (key : sample)
| EvConcat (patches : scores) (image_size window overlap : list nat)
| EvArgmax (a : scores)
| EvPostprocessing (sf : string) (pred : labels)
| EvSavePrediction (pred : labels) (key : sample)
| EvBatchCleanup
| EvSetWeights (ws : list scores)
| EvOpen (path mode : string)
| EvWrite (path data : string)
| EvRead (path : string)
| EvClose (path : string)
| EvSaveWeights (path : string)
| EvLoadWeights (path : string)
| EvModelFromJson (json : string).

(** Projections of an event list. *)
Definition pops (evs : list Event) : list sample :=
  omap (λ ev, match ev with EvShapeCachePop k => Some k | _ => None end) evs.

Definition saves (evs : list Event) : list (labels * sample) :=
  omap (λ ev, match ev with EvSavePrediction p k => Some (p, k) | _ => None end) evs.

Definition cleanups (evs : list Event) : nat :=
  length (omap (λ ev, match ev with EvBatchCleanup => Some tt | _ => None end) evs).

Definition generators (evs : list Event) : list DataGenerator :=
  omap (λ ev, match ev with EvDataGenerator g => Some g | _ => None end) evs.

Definition posts (evs : list Event) : list (string * labels) :=
  omap (λ ev, match ev with EvPostprocessing n p => Some (n, p) | _ => None end) evs.

Definition argmaxes (evs : list Event) : list scores :=
  omap (λ ev, match ev with EvArgmax a => Some a | _ => None end) evs.

Definition concats (evs : list Event) : list (scores * list nat * list nat * list nat) :=
  omap (λ ev, match ev with EvConcat p i w o => Some (p, i, w, o) | _ => None end) evs.

(** The file paths the events touch. *)
Definition artifact_paths (evs : list Event) : list string :=
  omap (λ ev, match ev with
              | EvOpen p _ | EvWrite p _ | EvRead p | EvClose p
              | EvSaveWeights p | EvLoadWeights p => Some p
              | _ => None
              end) evs.

(** ** The Keras model object *)

Record CompileArgs := {
  adam_lr : Q;
  c_loss : string;
  c_metrics : list string
}.

Record KModel := {
  config : string;                 (* what [to_json] serialises *)
  weights : list scores;           (* what [get_weights] returns *)
  compiled : option CompileArgs
}.

Definition get_weights (m : KModel) : list scores := weights m.

(** The model with other arrays as its weights. *)
Definition with_weights (m : KModel) (ws : list scores) : KModel :=
  {| config := config m; weights := ws; compiled := compiled m |}.



Definition to_json (m : KModel) : string := config m.

(** The model once [compile] has returned. *)
Definition compile (m : KModel) (lr : Q) (loss : string) (metrics : list string) : KModel :=
  {| config := config m; weights := weights m;
     compiled := Some {| adam_lr := lr; c_loss := loss; c_metrics := metrics |} |}.

(** Keras training history. *)
Definition History := list (string * list float).

(** ** np.argmax along the last axis *)

Definition is_nan (x : float) : bool :=
  match x with
  | NaN => true
  | _ => false
  end.

(** IEEE [<=]: false as soon as one side is NaN. *)
Definition float_le (x y : float) : bool :=
  match x, y with
  | NaN, _ | _, NaN => false
  | NegInf, _ => true
  | _, PosInf => true
  | Finite p, Finite q => Qle_bool p q
  | _, _ => false
  end.

Definition float_lt (x y : float) : bool := float_le x y && negb (float_le y x).

(** NumPy's scan: the running maximum [mp] is replaced by an element [x]
    when [x <= mp] is false, that is by a strictly larger element, so the
    first occurrence of the maximum wins, or by a NaN, at which the scan
    stops. *)
Fixpoint argmax_scan (mp : float) (max_ind i : nat) (ip : list float) : nat :=
  match ip with
  | [] => max_ind
  | x :: ip' =>
      if negb (float_le x mp) then
        if is_nan x then i else argmax_scan x i (S i) ip'
      else argmax_scan mp max_ind (S i) ip'
  end.

Definition argmax (ip : list float) : nat :=
  match ip with
  | [] => 0
  | x :: ip' => if is_nan x then 0 else argmax_scan x 0 1 ip'
  end.

Definition prod_list (l : list nat) : nat := foldr Nat.mul 1 l.

(** The class scores of voxel [v]: a contiguous run of the flat data. *)
Definition voxel_scores (c : nat) (a : scores) (v : nat) : list float :=
  take c (drop (v * c) (nd_data a)).

(** [np.argmax(a, axis=-1)].  A 0-dimensional array is treated as its one
    element and gives 0; an empty last axis has no maximum and NumPy
    raises. *)
Definition np_argmax (a : scores) : Res labels :=
  match rev (nd_shape a) with
  | [] => Ok (Ndarray [] [0])
  | c :: rlead =>
      let lead := rev rlead in
      if decide (c = 0) then Raise (ValueError "attempt to get argmax of an empty sequence")
      else Ok (Ndarray lead
                 (map (λ v, argmax (voxel_scores c a v)) (seq 0 (prod_list lead))))
  end.

Definition well_formed {A} (a : ndarray A) : Prop :=
  length (nd_data a) = prod_list (nd_shape a).

(** ** A state, exception and event monad *)

Definition M (S A : Type) : Type := S → Res A * S * list Event.

Definition ret {S A} (a : A) : M S A := λ s, (Ok a, s, []).

Definition raise {S A} (e : exn) : M S A := λ s, (Raise e, s, []).

Definition bind {S A B} (c : M S A) (k : A → M S B) : M S B :=
  λ s, match c s with
       | (Ok a, s1, evs1) =>
           match k a s1 with
           | (r, s2, evs2) => (r, s2, evs1 ++ evs2)
           end
       | (Raise e, s1, evs1) => (Raise e, s1, evs1)
       end.

Notation "x <- c ;; k" := (bind c (λ x, k))
  (at level 100, c at next level, right associativity).
Notation "c ;;; k" := (bind c (λ _, k))
  (at level 100, right associativity).

Definition gets {S A} (f : S → A) : M S A := λ s, (Ok (f s), s, []).

Definition modify {S} (f : S → S) : M S unit := λ s, (Ok tt, f s, []).

Definition log {S} (ev : Event) : M S unit := λ s, (Ok tt, s, [ev]).

(** Python's [with]/[finally]: [fin] runs whether or not [c] raised. *)
Definition try_finally {S A} (c : M S A) (fin : M S unit) : M S A :=
  λ s, match c s with
       | (r, s1, evs1) =>
           match fin s1 with
           | (Ok _, s2, evs2) => (r, s2, evs1 ++ evs2)
           | (Raise e, s2, evs2) => (Raise e, s2, evs1 ++ evs2)
           end
       end.

Definition result {S A} (x : Res A * S * list Event) : Res A := x.1.1.
Definition final {S A} (x : Res A * S * list Event) : S := x.1.2.
Definition events {S A} (x : Res A * S * list Event) : list Event := x.2.

(** ** Collaborators and objects *)

Section Pipeline.

(** Everything outside the interpreter's heap: file system, devices,
    random state. *)
Context {World : Type}.

(** The part of the program state collaborators may read and change: the
    preprocessor's [shape_cache] dictionary and the outside world. *)
Record Store := {
  shape_cache : gmap string (list nat);
  world : World
}.

(** An external call: it may fail and may change the store. *)
Definition Ext (A : Type) : Type :=
  gmap string (list nat) → World → Res A * gmap string (list nat) * World.

Record Architecture := {
  create_model_2D : list (option nat) → nat → Ext KModel;
  create_model_3D : list (option nat) → nat → Ext KModel
}.

Record Interface := {
  three_dim : bool;
  channels : nat;
  classes : nat
}.

Record Data_IO := {
  interface : Interface;
  save_prediction : labels → sample → Ext unit;
  batch_cleanup : Ext unit
}.

(** A subfunction's [postprocessing] works on the array it is handed: the
    first component is the content of that array after the call, the
    second is the value the call returns. *)
Record Subfunction := {
  sf_name : string;
  postprocessing : labels → Ext (labels * option labels)
}.

(** The preprocessor's configuration; its mutable [shape_cache] lives in
    the [Store]. *)
Record Preprocessor := {
  data_io : Data_IO;
  analysis : string;
  patch_shape : list nat;
  patchwise_grid_overlap : list nat;
  prepare_batches : bool;
  prepare_subfunctions : bool;
  subfunctions : list Subfunction
}.

(** Module-level collaborators: Keras, the data generator, the patch
    reconstructor and the file API. *)
Class Backend := {
  multi_gpu_model : KModel → nat → Ext KModel;
  model_from_json : string → Ext KModel;
  (* whether [compile] accepts its arguments *)
  compile_check : KModel → Q → string → list string → Ext unit;
  (* training works on the model object in place: besides its result, the
     call gives the model as it left it, also when it ends in an error *)
  fit_generator : KModel → DataGenerator → option DataGenerator → list string →
                  nat → nat → gmap string (list nat) → World →
                  Res History * KModel * gmap string (list nat) * World;
  predict_generator : KModel → DataGenerator → nat → Ext scores;
  save_weights : KModel → string → Ext unit;
  load_weights : KModel → string → Ext (list scores);
  DataGenerator_init : DataGenerator → Preprocessor → Ext unit;
  concat_3Dmatrices : scores → list nat → list nat → list nat → Res scores;
  file_open : string → string → Ext unit;
  file_write : string → string → Ext unit;
  file_read : string → Ext string;
  file_close : string → Ext unit
}.

Context `{Backend}.

Record Neural_Network := {
  model : KModel;
  initialization_weights : list scores;
  preprocessor : Preprocessor;
  loss : string;
  metrics : list string;
  epochs : nat;
  learninig_rate : Q;
  batch_queue_size : nat;
  shuffle_batches : bool
}.

Definition set_model (nn : Neural_Network) (m : KModel) : Neural_Network :=
  {| model := m;
     initialization_weights := initialization_weights nn;
     preprocessor := preprocessor nn;
     loss := loss nn;
     metrics := metrics nn;
     epochs := epochs nn;
     learninig_rate := learninig_rate nn;
     batch_queue_size := batch_queue_size nn;
     shuffle_batches := shuffle_batches nn |}.

(** The state a method runs in: the object and the store. *)
Record State := {
  self : Neural_Network;
  store : Store
}.

(** ** Primitive steps *)

Definition call {A} (ev : Event) (o : Ext A) : M Store A :=
  λ st, match o (shape_cache st) (world st) with
        | (r, c, w) => (r, {| shape_cache := c; world := w |}, [ev])
        end.

Definition pure_call {S A} (ev : Event) (r : Res A) : M S A :=
  λ s, (r, s, [ev]).

Definition liftS {A} (c : M Store A) : M State A :=
  λ s, match c (store s) with
       | (r, st, evs) => (r, {| self := self s; store := st |}, evs)
       end.

(** [shape_cache.pop(key)]: a missing key is a [KeyError]. *)
Definition shape_cache_pop (key : sample) : M Store (list nat) :=
  λ st, match shape_cache st !! key with
        | Some shp =>
            (Ok shp, {| shape_cache := delete key (shape_cache st); world := world st |},
             [EvShapeCachePop key])
        | None => (Raise (KeyError key), st, [EvShapeCachePop key])
        end.

Definition new_DataGenerator (sample_list : list sample) (pre : Preprocessor)
    (training validation shuffle : bool) : M Store DataGenerator :=
  let gen := {| dg_sample_list := sample_list; dg_training := training;
                dg_validation := validation; dg_shuffle := shuffle |} in
  call (EvDataGenerator gen) (DataGenerator_init gen pre) ;;;
  ret gen.

(** [self.model.fit_generator(...)]: the model is trained in place. *)
Definition model_fit_generator (gen : DataGenerator) (validation_data : option DataGenerator)
    (callbacks : list string) : M State History :=
  λ s, let nn := self s in
       match fit_generator (model nn) gen validation_data callbacks (epochs nn)
               (batch_queue_size nn) (shape_cache (store s)) (world (store s)) with
       | (r, m, c, w) =>
           (r, {| self := set_model nn m;
                  store := {| shape_cache := c; world := w |} |},
            [EvFitGenerator gen validation_data callbacks (epochs nn) (batch_queue_size nn)])
       end.

(** "Clean up temporary files if necessary": the guarded call that ends
    train, evaluate and each iteration of predict. *)
Definition clean_up_temporary_files : M State unit :=
  nn <- gets self ;;
  if prepare_batches (preprocessor nn) || prepare_subfunctions (preprocessor nn)
  then liftS (call EvBatchCleanup (batch_cleanup (data_io (preprocessor nn))))
  else ret tt.

(** [model.compile(optimizer=Adam(lr=lr), loss=loss, metrics=metrics)]. *)
Definition model_compile (m : KModel) (lr : Q) (loss : string) (metrics : list string)
    : M Store KModel :=
  call (EvCompile lr loss metrics) (compile_check m lr loss metrics) ;;;
  ret (compile m lr loss metrics).

(** ** Construction *)

Definition __init__ (preprocessor : Preprocessor) (architecture : Architecture)
    (loss : string) (metrics : list string) (epochs : nat) (learninig_rate : Q)
    (batch_queue_size gpu_number : nat) : M Store Neural_Network :=
  let three_dim := three_dim (interface (data_io preprocessor)) in
  let channels := channels (interface (data_io preprocessor)) in
  let classes := classes (interface (data_io preprocessor)) in
  model <- (if three_dim then
              let input_shape := [None; None; None; Some channels] in
              call (EvCreateModel3D input_shape classes)
                   (create_model_3D architecture input_shape classes)
            else
              let input_shape := [None; None; Some channels] in
              call (EvCreateModel2D input_shape classes)
                   (create_model_2D architecture input_shape classes)) ;;
  model <- (if 1 <? gpu_number then
              call (EvMultiGpuModel gpu_number) (multi_gpu_model model gpu_number)
            else ret model) ;;
  model <- model_compile model learninig_rate loss metrics ;;
  let initialization_weights := get_weights model in
  ret {| model := model;
         initialization_weights := initialization_weights;
         preprocessor := preprocessor;
         loss := loss;
         metrics := metrics;
         epochs := epochs;
         learninig_rate := learninig_rate;
         batch_queue_size := batch_queue_size;
         shuffle_batches := true |}.

(** ** Training *)

Definition train (sample_list : list sample) : M State unit :=
  nn <- gets self ;;
  dataGen <- liftS (new_DataGenerator sample_list (preprocessor nn) true false
                      (shuffle_batches nn)) ;;
  model_fit_generator dataGen None [] ;;;
  clean_up_temporary_files.

(** ** Prediction *)

Definition patchwise (pre : Preprocessor) : bool :=
  String.eqb (analysis pre) "patchwise-crop" || String.eqb (analysis pre) "patchwise-grid".

(** Lines 140-146: build the generator for this one sample and run the
    model over its batches. *)
Definition fetch_infer (sample : sample) : M State scores :=
  nn <- gets self ;;
  dataGen <- liftS (new_DataGenerator [sample] (preprocessor nn) false false false) ;;
  liftS (call (EvPredictGenerator dataGen (batch_queue_size nn))
              (predict_generator (model nn) dataGen (batch_queue_size nn))).

(** Lines 148-157: for the patchwise modes, pop the cached shape and
    concatenate the patches. *)
Definition reassemble (sample : sample) (pred_seg : scores) : M State scores :=
  nn <- gets self ;;
  if patchwise (preprocessor nn) then
    seg_shape <- liftS (shape_cache_pop sample) ;;
    let window := patch_shape (preprocessor nn) in
    let overlap := patchwise_grid_overlap (preprocessor nn) in
    pure_call (EvConcat pred_seg seg_shape window overlap)
              (concat_3Dmatrices pred_seg seg_shape window overlap)
  else ret pred_seg.

(** Line 159. *)
Definition discretize (pred_seg : scores) : M State labels :=
  pure_call (EvArgmax pred_seg) (np_argmax pred_seg).

(** Lines 161-162: the value a [postprocessing] call returns is dropped;
    the next step sees the array as the call left it. *)
Fixpoint run_subfunctions (sfs : list Subfunction) (pred_seg : labels) : M State labels :=
  match sfs with
  | [] => ret pred_seg
  | sf :: sfs' =>
      r <- liftS (call (EvPostprocessing (sf_name sf) pred_seg) (postprocessing sf pred_seg)) ;;
      run_subfunctions sfs' r.1
  end.

(** Lines 164-165. *)
Definition emit (direct_output : bool) (pred_seg : labels) (sample : sample)
    (results : list labels) : M State (list labels) :=
  if direct_output then ret (results ++ [pred_seg])
  else
    nn <- gets self ;;
    liftS (call (EvSavePrediction pred_seg sample)
                (save_prediction (data_io (preprocessor nn)) pred_seg sample)) ;;;
    ret results.

(** Lines 140-162: the predicted segmentation of one sample. *)
Definition sample_prediction (sample : sample) : M State labels :=
  pred_seg <- fetch_infer sample ;;
  pred_seg <- reassemble sample pred_seg ;;
  pred_seg <- discretize pred_seg ;;
  nn <- gets self ;;
  run_subfunctions (subfunctions (preprocessor nn)) pred_seg.

(** The stages of one sample, up to the backup of its prediction. *)
Definition sample_stages (direct_output : bool) (sample : sample) (results : list labels)
    : M State (list labels) :=
  pred_seg <- sample_prediction sample ;;
  emit direct_output pred_seg sample results.

(** One iteration of the loop over [sample_list]. *)
Definition predict_iteration (direct_output : bool) (sample : sample) (results : list labels)
    : M State (list labels) :=
  results <- sample_stages direct_output sample results ;;
  clean_up_temporary_files ;;;
  ret results.

Fixpoint predict_loop (direct_output : bool) (sample_list : list sample)
    (results : list labels) : M State (list labels) :=
  match sample_list with
  | [] => ret results
  | sample :: rest =>
      results <- predict_iteration direct_output sample results ;;
      predict_loop direct_output rest results
  end.

(** [predict] returns the result list in direct mode and [None] otherwise. *)
Definition predict (sample_list : list sample) (direct_output : bool)
    : M State (option (list labels)) :=
  results <- predict_loop direct_output sample_list [] ;;
  ret (if direct_output then Some results else None).

(** ** Evaluation *)

Definition evaluate (training_samples validation_samples : list sample)
    (callbacks : list string) : M State History :=
  nn <- gets self ;;
  dataGen_training <- liftS (new_DataGenerator training_samples (preprocessor nn)
                               true false (shuffle_batches nn)) ;;
  dataGen_validation <- liftS (new_DataGenerator validation_samples (preprocessor nn)
                                 true true (shuffle_batches nn)) ;;
  history <- model_fit_generator dataGen_training (Some dataGen_validation) callbacks ;;
  clean_up_temporary_files ;;;
  ret history.

(** ** Model management *)


Definition dump (file_path : string) : M State unit :=
  nn <- gets self ;;
  let outpath_model := String.append file_path ".model.json" in
  let outpath_weights := String.append file_path ".weights.h5" in
  let model_json := to_json (model nn) in
  liftS (call (EvOpen outpath_model "w") (file_open outpath_model "w")) ;;;
  try_finally
    (liftS (call (EvWrite outpath_model model_json) (file_write outpath_model model_json)))
    (liftS (call (EvClose outpath_model) (file_close outpath_model))) ;;;
  liftS (call (EvSaveWeights outpath_weights) (save_weights (model nn) outpath_weights)).

Definition load (file_path : string) : M State unit :=
  let inpath_model := String.append file_path ".model.json" in
  let inpath_weights := String.append file_path ".weights.h5" in
  liftS (call (EvOpen inpath_model "r") (file_open inpath_model "r")) ;;;
  loaded_model_json <- liftS (call (EvRead inpath_model) (file_read inpath_model)) ;;
  liftS (call (EvClose inpath_model) (file_close inpath_model)) ;;;
  m <- liftS (call (EvModelFromJson loaded_model_json) (model_from_json loaded_model_json)) ;;
  modify (λ s, {| self := set_model (self s) m; store := store s |}) ;;;
  ws <- liftS (call (EvLoadWeights inpath_weights) (load_weights m inpath_weights)) ;;
  modify (λ s, {| self := set_model (self s) (with_weights (model (self s)) ws);
                  store := store s |}) ;;;
  nn <- gets self ;;
  m <- liftS (model_compile (model nn) (learninig_rate nn) (loss nn) (metrics nn)) ;;
  modify (λ s, {| self := set_model (self s) m; store := store s |}).

(** ** Histories of method calls *)




End Pipeline.

(** ** Vocabulary of the statements *)

Section Vocabulary.
Context {World : Type} `{!Backend (World := World)}.
Implicit Types (s : State (World := World)) (nn : Neural_Network (World := World)).
Implicit Types (pre : Preprocessor (World := World)).

(** Run from [s], [c] does not change [self] and emits only events that
    [P] allows for that object. *)
Definition stage_at {A} (P : Neural_Network → Event → Prop) (c : M State A) s : Prop :=
  self (final (c s)) = self s ∧ Forall (P (self s)) (events (c s)).

(** A method may replace or retrain the model; nothing else of [self]
    changes. *)
Definition frames_model {A} (c : M State A) : Prop :=
  ∀ s, ∃ m, self (final (c s)) = set_model (self s) m.

(** On-disk batch or subfunction caching is active. *)
Definition caching pre : bool := prepare_batches pre || prepare_subfunctions pre.

(** The generator predict builds for one sample. *)
Definition single_generator (x : sample) : DataGenerator :=
  {| dg_sample_list := [x]; dg_training := false;
     dg_validation := false; dg_shuffle := false |}.

(** The events the stages of sample [x] can emit. *)
Inductive stage_event (d : bool) (x : sample) nn : Event → Prop :=
| se_generator : stage_event d x nn (EvDataGenerator (single_generator x))
| se_predict :
    stage_event d x nn (EvPredictGenerator (single_generator x) (batch_queue_size nn))
| se_pop : patchwise (preprocessor nn) = true → stage_event d x nn (EvShapeCachePop x)
| se_concat raw shp :
    patchwise (preprocessor nn) = true →
    stage_event d x nn (EvConcat raw shp (patch_shape (preprocessor nn))
                          (patchwise_grid_overlap (preprocessor nn)))
| se_argmax vol : stage_event d x nn (EvArgmax vol)
| se_post sf p :
    sf ∈ subfunctions (preprocessor nn) → stage_event d x nn (EvPostprocessing (sf_name sf) p)
| se_save p : d = false → stage_event d x nn (EvSavePrediction p x).

(** The events of a whole iteration: the stages' and the guarded cleanup. *)
Definition iteration_event (d : bool) (x : sample) nn (ev : Event) : Prop :=
  stage_event d x nn ev ∨ (ev = EvBatchCleanup ∧ caching (preprocessor nn) = true).

Definition predict_event (d : bool) (sl : list sample) nn (ev : Event) : Prop :=
  ∃ x, x ∈ sl ∧ iteration_event d x nn ev.

(** The events that can follow discretization. *)
Definition late_event (ev : Event) : Prop :=
  match ev with
  | EvPostprocessing _ _ | EvSavePrediction _ _ | EvBatchCleanup => True
  | _ => False
  end.

(** The rest of an iteration once the labels are there, and once the
    sample's scores are there. *)
Definition after_discretize (d : bool) (x : sample) (res : list labels) (lab : labels)
    : M (State (World := World)) (list labels) :=
  nn <- gets self ;;
  pred_seg <- run_subfunctions (subfunctions (preprocessor nn)) lab ;;
  results <- emit d pred_seg x res ;;
  clean_up_temporary_files ;;;
  ret results.

Definition iteration_tail (d : bool) (x : sample) (res : list labels) (vol : scores)
    : M (State (World := World)) (list labels) :=
  lab <- discretize vol ;;
  after_discretize d x res lab.

(** What a successful [reassemble] did: in the patchwise modes it removed
    the sample's shape [shp] from the cache and concatenated the patches
    into that shape; otherwise nothing. *)
Definition reassembled pre (x : sample) (raw vol : scores)
    (st : Store (World := World)) (evs : list Event) (st' : Store (World := World)) : Prop :=
  if patchwise pre then
    ∃ shp, shape_cache st !! x = Some shp ∧
           concat_3Dmatrices raw shp (patch_shape pre) (patchwise_grid_overlap pre) = Ok vol ∧
           evs = [EvShapeCachePop x;
                  EvConcat raw shp (patch_shape pre) (patchwise_grid_overlap pre)] ∧
           st' = {| shape_cache := delete x (shape_cache st); world := world st |}
  else vol = raw ∧ evs = [] ∧ st' = st.

Definition post_events (ps : list (string * labels)) : list Event :=
  map (λ p, EvPostprocessing p.1 p.2) ps.

Definition emit_events (d : bool) (seg : labels) (x : sample) : list Event :=
  if d then [] else [EvSavePrediction seg x].

Definition cleanup_events pre : list Event :=
  if caching pre then [EvBatchCleanup] else [].

(** [post_chain sfs v s ps out s']: starting with array content [v] in
    state [s], the subfunctions [sfs] were called once each, in list
    order, every one on the array as its predecessor left it; [ps] lists
    the calls (name, content received), [out] is the final content. *)
Inductive post_chain : list Subfunction → labels → State → list (string * labels) →
                       labels → State → Prop :=
| post_chain_nil v s : post_chain [] v s [] v s
| post_chain_cons sf sfs v s v' rv c w ps out s' :
    postprocessing sf v (shape_cache (store s)) (world (store s)) = (Ok (v', rv), c, w) →
    post_chain sfs v' {| self := self s; store := {| shape_cache := c; world := w |} |}
               ps out s' →
    post_chain (sf :: sfs) v s ((sf_name sf, v) :: ps) out s'.

(** A successful run of the loop, iteration by iteration, with the events
    of each iteration. *)
Inductive loop_run (d : bool) : list sample → list labels → State → list labels → State →
                                list (list Event) → Prop :=
| loop_run_nil res s : loop_run d [] res s res s []
| loop_run_cons x rest res s res1 s1 seg res' s' segs :
    predict_iteration d x res s = (Ok res1, s1, seg) →
    loop_run d rest res1 s1 res' s' segs →
    loop_run d (x :: rest) res s res' s' (seg :: segs).

(** [predictions d sl s vols s']: [vols] are the predicted segmentations
    of the samples [sl], one each and in that order, every iteration
    starting where the previous one ended. *)
Inductive predictions (d : bool) : list sample → State → list labels → State → Prop :=
| predictions_nil s : predictions d [] s [] s
| predictions_cons x rest s vol s1 e1 res res1 s2 e2 vols s' :
    sample_prediction x s = (Ok vol, s1, e1) →
    predict_iteration d x res s = (Ok res1, s2, e2) →
    predictions d rest s2 vols s' →
    predictions d (x :: rest) s (vol :: vols) s'.

(** The generators train and evaluate build, and the events of their
    complete runs. *)
Definition training_generator (sl : list sample) (validation : bool) nn : DataGenerator :=
  {| dg_sample_list := sl; dg_training := true;
     dg_validation := validation; dg_shuffle := shuffle_batches nn |}.

Definition train_events (sl : list sample) nn : list Event :=
  [EvDataGenerator (training_generator sl false nn);
   EvFitGenerator (training_generator sl false nn) None [] (epochs nn) (batch_queue_size nn)]
  ++ cleanup_events (preprocessor nn).

Definition evaluate_events (ts vs : list sample) (callbacks : list string) nn : list Event :=
  [EvDataGenerator (training_generator ts false nn);
   EvDataGenerator (training_generator vs true nn);
   EvFitGenerator (training_generator ts false nn) (Some (training_generator vs true nn))
     callbacks (epochs nn) (batch_queue_size nn)]
  ++ cleanup_events (preprocessor nn).

(** The events of one complete iteration of predict end with the guarded
    cleanup and belong to one sample. *)
Definition sample_segment pre (d : bool) (x : sample) (seg : list Event) : Prop :=
  ∃ seg0, seg = seg0 ++ cleanup_events pre ∧
          cleanups seg0 = 0 ∧
          generators seg = [single_generator x] ∧
          pops seg = (if patchwise pre then [x] else []) ∧
          map snd (saves seg) = (if d then [] else [x]).

(** The two artifacts of a path prefix, and the events of complete runs
    of dump and load. *)
Definition model_path (file_path : string) : string := String.append file_path ".model.json".
Definition weights_path (file_path : string) : string := String.append file_path ".weights.h5".

Definition dump_events (file_path : string) nn : list Event :=
  [EvOpen (model_path file_path) "w";
   EvWrite (model_path file_path) (to_json (model nn));
   EvClose (model_path file_path);
   EvSaveWeights (weights_path file_path)].

Definition load_events (file_path json : string) nn : list Event :=
  [EvOpen (model_path file_path) "r";
   EvRead (model_path file_path);
   EvClose (model_path file_path);
   EvModelFromJson json;
   EvLoadWeights (weights_path file_path);
   EvCompile (learninig_rate nn) (loss nn) (metrics nn)].

(** The events of construction. *)
Definition construction_event (ev : Event) : Prop :=
  match ev with
  | EvCreateModel3D _ _ | EvCreateModel2D _ _ | EvMultiGpuModel _ | EvCompile _ _ _ => True
  | _ => False
  end.


(** The class scores of a voxel, by index. *)
Definition score (a : scores) (c v j : nat) : float :=
  nth (v * c + j) (nd_data a) (Finite 0).

(** A preprocessor with another window and overlap. *)
Definition with_grid pre (window overlap : list nat) : Preprocessor :=
  {| data_io := data_io pre;
     analysis := analysis pre;
     patch_shape := window;
     patchwise_grid_overlap := overlap;
     prepare_batches := prepare_batches pre;
     prepare_subfunctions := prepare_subfunctions pre;
     subfunctions := subfunctions pre |}.

Definition set_preprocessor nn pre : Neural_Network :=
  {| model := model nn;
     initialization_weights := initialization_weights nn;
     preprocessor := pre;
     loss := loss nn;
     metrics := metrics nn;
     epochs := epochs nn;
     learninig_rate := learninig_rate nn;
     batch_queue_size := batch_queue_size nn;
     shuffle_batches := shuffle_batches nn |}.

Definition map_res {A B} (f : A → B) (r : Res A) : Res B :=
  match r with
  | Ok a => Ok (f a)
  | Raise e => Raise e
  end.

End Vocabulary.

(** ** A concrete set of collaborators

    A small world used to run the methods on concrete inputs: the world is
    a counter of collaborator failures to come ([0]: none), 2x2 images
    with two classes, one patch per image. *)

Module Demo.

Definition zero : float := Finite 0.
Definition quarter : float := Finite (1 # 4).
Definition half : float := Finite (1 # 2).
Definition one : float := Finite 1.

(** One patch of a 2x2 image, two classes per pixel; pixel 1 is a tie. *)
Definition patch : scores :=
  Ndarray [1; 2; 2; 2] [quarter; half; half; half; half; quarter; zero; one].

(** The generator registers the shape of each of its samples when
    [register] is set, as patch extraction does. *)
Definition demo_backend (register : bool) : Backend (World := nat) := {|
  multi_gpu_model m _ c w := (Ok m, c, w);
  model_from_json js c w :=
    (Ok {| config := js; weights := [Ndarray [1] [zero]]; compiled := None |}, c, w);
  compile_check _ _ _ _ c w := (Ok tt, c, w);
  fit_generator m _ _ _ _ _ c w :=
    (Ok [("loss"%string, [half])], with_weights m [Ndarray [2] [quarter; quarter]], c, w);
  predict_generator _ _ _ c w :=
    match w with
    | O => (Ok patch, c, w)
    | S w' => (Raise (ExternalError "ResourceExhaustedError"), c, w')
    end;
  save_weights _ _ c w := (Ok tt, c, w);
  load_weights _ _ c w := (Ok [Ndarray [1] [one]], c, w);
  DataGenerator_init g _ c w :=
    (Ok tt,
     if register then foldr (λ k c, <[k := [2; 2]]> c) c (dg_sample_list g) else c,
     w);
  concat_3Dmatrices patches image_size _ _ :=
    Ok (Ndarray (image_size ++ [2]) (nd_data patches));
  file_open _ _ c w := (Ok tt, c, w);
  file_write _ _ c w := (Ok tt, c, w);
  file_read _ c w := (Ok "{}"%string, c, w);
  file_close _ c w := (Ok tt, c, w)
|}.

Definition unet : Architecture (World := nat) := {|
  create_model_2D _ _ c w :=
    (Ok {| config := "unet2d"; weights := [Ndarray [2] [half; half]]; compiled := None |}, c, w);
  create_model_3D _ _ c w :=
    (Ok {| config := "unet3d"; weights := [Ndarray [2] [half; half]]; compiled := None |}, c, w)
|}.

Definition demo_io : Data_IO (World := nat) := {|
  interface := {| three_dim := false; channels := 1; classes := 2 |};
  save_prediction _ _ c w := (Ok tt, c, w);
  batch_cleanup c w := (Ok tt, c, w)
|}.

(** Two post-processors that change the array they are given: the first
    adds one to every label, the second doubles it.  The first also
    returns a fresh array, which the pipeline ignores. *)
Definition shift_labels : Subfunction (World := nat) := {|
  sf_name := "Shift";
  postprocessing p c w :=
    (Ok (Ndarray (nd_shape p) (map S (nd_data p)), Some (Ndarray [] [7])), c, w)
|}.

Definition double_labels : Subfunction (World := nat) := {|
  sf_name := "Double";
  postprocessing p c w :=
    (Ok (Ndarray (nd_shape p) (map (λ x, 2 * x) (nd_data p)), None), c, w)
|}.

Definition demo_preprocessor (analysis : string) (window overlap : list nat)
    (caching : bool) : Preprocessor := {|
  data_io := demo_io;
  analysis := analysis;
  patch_shape := window;
  patchwise_grid_overlap := overlap;
  prepare_batches := caching;
  prepare_subfunctions := false;
  subfunctions := [shift_labels; double_labels]
|}.

Definition empty_store (failures : nat) : Store := {| shape_cache := ∅; world := failures |}.

(** The object [Neural_Network(preprocessor)] builds with the default
    arguments. *)
Definition demo_network (pre : Preprocessor (World := nat)) : Neural_Network := {|
  model := {| config := "unet2d"; weights := [Ndarray [2] [half; half]];
              compiled := Some {| adam_lr := 1 # 10000; c_loss := "tversky_loss";
                                  c_metrics := ["dice_classwise"] |} |};
  initialization_weights := [Ndarray [2] [half; half]];
  preprocessor := pre;
  loss := "tversky_loss";
  metrics := ["dice_classwise"];
  epochs := 20;
  learninig_rate := 1 # 10000;
  batch_queue_size := 2;
  shuffle_batches := true
|}.

Definition demo_state (pre : Preprocessor (World := nat)) (failures : nat) : State :=
  {| self := demo_network pre; store := empty_store failures |}.

(** A patchwise pipeline with caching on, and a whole-image one with
    caching off. *)
Definition grid_preprocessor : Preprocessor (World := nat) :=
  demo_preprocessor "patchwise-grid" [2; 2] [0; 0] true.

Definition full_preprocessor : Preprocessor (World := nat) :=
  demo_preprocessor "fullimage" [2; 2] [0; 0] false.

Definition grid_state : State := demo_state grid_preprocessor 0.
Definition full_state : State := demo_state full_preprocessor 0.

(** Collaborators whose generator registers the samples' shapes, and
    collaborators whose generator does not. *)
Definition registering : Backend (World := nat) := demo_backend true.
Definition forgetful : Backend (World := nat) := demo_backend false.

(** Collaborators whose training and whose weight loading raise; training
    has changed the weights by then. *)
Definition brittle : Backend (World := nat) := {|
  multi_gpu_model := multi_gpu_model (Backend := registering);
  model_from_json := model_from_json (Backend := registering);
  compile_check := compile_check (Backend := registering);
  fit_generator m _ _ _ _ _ c w :=
    (Raise (ExternalError "ResourceExhaustedError"),
     with_weights m [Ndarray [2] [quarter; half]], c, w);
  predict_generator := predict_generator (Backend := registering);
  save_weights := save_weights (Backend := registering);
  load_weights _ _ c w := (Raise (ExternalError "OSError"), c, w);
  DataGenerator_init := DataGenerator_init (Backend := registering);
  concat_3Dmatrices := concat_3Dmatrices (Backend := registering);
  file_open := file_open (Backend := registering);
  file_write := file_write (Backend := registering);
  file_read := file_read (Backend := registering);
  file_close := file_close (Backend := registering)
|}.


Definition strict : Backend (World := nat) := {|
  multi_gpu_model := multi_gpu_model (Backend := registering);
  model_from_json := model_from_json (Backend := registering);
  compile_check _ _ _ _ c w := (Raise (ValueError "unknown loss function"), c, w);
  fit_generator := fit_generator (Backend := registering);
  predict_generator := predict_generator (Backend := registering);
  save_weights := save_weights (Backend := registering);
  load_weights := load_weights (Backend := registering);
  DataGenerator_init := DataGenerator_init (Backend := registering);
  concat_3Dmatrices := concat_3Dmatrices (Backend := registering);
  file_open := file_open (Backend := registering);
  file_write := file_write (Backend := registering);
  file_read := file_read (Backend := registering);
  file_close := file_close (Backend := registering)
|}.

(** The demo state once the shape of sample "a" is cached. *)
Definition cached_state : State :=
  {| self := demo_network grid_preprocessor;
     store := {| shape_cache := {["a"%string := [2; 2]]}; world := 0 |} |}.

End Demo.

(** * Properties *)

(** ** The monad *)

Lemma bind_ok {S A B} (c : M S A) (k : A → M S B) s a s1 e1 :
  c s = (Ok a, s1, e1) →
  bind c k s = (result (k a s1), final (k a s1), e1 ++ events (k a s1)).
Proof. intros Hc. unfold bind. rewrite Hc. by destruct (k a s1) as [[? ?] ?]. Qed.

Lemma bind_raise {S A B} (c : M S A) (k : A → M S B) s e s1 e1 :
  c s = (Raise e, s1, e1) → bind c k s = (Raise e, s1, e1).
Proof. intros Hc. unfold bind. by rewrite Hc. Qed.

Lemma bind_ok_inv {S A B} (c : M S A) (k : A → M S B) s b s' evs :
  bind c k s = (Ok b, s', evs) →
  ∃ a s1 e1 e2, c s = (Ok a, s1, e1) ∧ k a s1 = (Ok b, s', e2) ∧ evs = e1 ++ e2.
Proof.
  unfold bind. destruct (c s) as [[[a|e] s1] e1]; [|done].
  destruct (k a s1) as [[r s2] e2] eqn:Hk. intros [= -> -> <-].
  by exists a, s1, e1, e2.
Qed.

Lemma bind_raise_inv {S A B} (c : M S A) (k : A → M S B) s e s' evs :
  bind c k s = (Raise e, s', evs) →
  c s = (Raise e, s', evs) ∨
  ∃ a s1 e1 e2, c s = (Ok a, s1, e1) ∧ k a s1 = (Raise e, s', e2) ∧ evs = e1 ++ e2.
Proof.
  unfold bind. destruct (c s) as [[[a|e0] s1] e1].
  - destruct (k a s1) as [[r s2] e2] eqn:Hk. intros [= -> -> <-].
    right. by exists a, s1, e1, e2.
  - intros [= -> -> ->]. by left.
Qed.

Lemma bind_cases {S A B} (c : M S A) (k : A → M S B) s r s' evs :
  bind c k s = (r, s', evs) →
  (∃ e, r = Raise e ∧ c s = (Raise e, s', evs)) ∨
  (∃ a s1 e1 e2, c s = (Ok a, s1, e1) ∧ k a s1 = (r, s', e2) ∧ evs = e1 ++ e2).
Proof.
  unfold bind. destruct (c s) as [[[a|e] s1] e1].
  - destruct (k a s1) as [[r2 s2] e2] eqn:Hk. intros [= <- <- <-].
    right. by exists a, s1, e1, e2.
  - intros [= <- <- <-]. left. by exists e.
Qed.


Lemma events_bind {S A B} (c : M S A) (k : A → M S B) s :
  events (bind c k s) =
  events (c s) ++ match result (c s) with
                  | Ok a => events (k a (final (c s)))
                  | Raise _ => []
                  end.
Proof.
  unfold bind, events, result, final. destruct (c s) as [[[a|e] s1] e1]; simpl.
  - by destruct (k a s1) as [[? ?] ?].
  - by rewrite app_nil_r.
Qed.

Lemma final_bind {S A B} (c : M S A) (k : A → M S B) s :
  final (bind c k s) = match result (c s) with
                       | Ok a => final (k a (final (c s)))
                       | Raise _ => final (c s)
                       end.
Proof.
  unfold bind, result, final. destruct (c s) as [[[a|e] s1] e1]; simpl; [|done].
  by destruct (k a s1) as [[? ?] ?].
Qed.

Lemma run_ok {S A} (x : Res A * S * list Event) a :
  result x = Ok a → x = (Ok a, final x, events x).
Proof. destruct x as [[r s] evs]. unfold result, final, events. simpl. by intros ->. Qed.


(** ** Event projections *)

Lemma pops_app e1 e2 : pops (e1 ++ e2) = pops e1 ++ pops e2.
Proof. apply omap_app. Qed.

Lemma saves_app e1 e2 : saves (e1 ++ e2) = saves e1 ++ saves e2.
Proof. apply omap_app. Qed.

Lemma generators_app e1 e2 : generators (e1 ++ e2) = generators e1 ++ generators e2.
Proof. apply omap_app. Qed.

Lemma posts_app e1 e2 : posts (e1 ++ e2) = posts e1 ++ posts e2.
Proof. apply omap_app. Qed.

Lemma concats_app e1 e2 : concats (e1 ++ e2) = concats e1 ++ concats e2.
Proof. apply omap_app. Qed.

Lemma argmaxes_app e1 e2 : argmaxes (e1 ++ e2) = argmaxes e1 ++ argmaxes e2.
Proof. apply omap_app. Qed.

Lemma artifact_paths_app e1 e2 :
  artifact_paths (e1 ++ e2) = artifact_paths e1 ++ artifact_paths e2.
Proof. apply omap_app. Qed.

Lemma cleanups_app e1 e2 : cleanups (e1 ++ e2) = cleanups e1 + cleanups e2.
Proof. unfold cleanups. by rewrite omap_app, length_app. Qed.

Lemma omap_none_Forall {A B} (f : A → option B) (l : list A) :
  Forall (λ x, f x = None) l → omap f l = [].
Proof. induction 1 as [|x l Hx _ IH]; simpl; [done|]. by rewrite Hx. Qed.

Lemma omap_Forall {A B} (f : A → option B) (P : A → Prop) (Q : B → Prop) (l : list A) :
  (∀ x y, P x → f x = Some y → Q y) → Forall P l → Forall Q (omap f l).
Proof.
  intros HPQ. induction 1 as [|x l Hx _ IH]; simpl; [constructor|].
  destruct (f x) as [y|] eqn:Hf; [|done]. constructor; eauto.
Qed.

(** ** Stages of predict *)

Section Stages.
Context {World : Type} `{!Backend (World := World)}.
Implicit Types (s : State (World := World)) (st : Store (World := World)).
Implicit Types (nn : Neural_Network (World := World)).
Implicit Types (pre : Preprocessor (World := World)).
Implicit Types (P : Neural_Network (World := World) → Event → Prop).

Lemma stage_bind {A B} P (c : M State A) (k : A → M State B) s :
  stage_at P c s →
  (∀ a, result (c s) = Ok a → stage_at P (k a) (final (c s))) →
  stage_at P (bind c k) s.
Proof.
  intros [Hself Hevs] Hk. unfold stage_at.
  rewrite final_bind, events_bind.
  destruct (result (c s)) as [a|e] eqn:Hr.
  - destruct (Hk a eq_refl) as [Hself' Hevs']. rewrite Hself in *.
    split; [done|]. by apply Forall_app.
  - rewrite app_nil_r. done.
Qed.

Lemma stage_ret {A} P (a : A) s : stage_at P (ret a) s.
Proof. split; [done|constructor]. Qed.

Lemma stage_gets {A} P (f : State → A) s : stage_at P (gets f) s.
Proof. split; [done|constructor]. Qed.

Lemma stage_liftS {A} P (c : M Store A) s :
  Forall (P (self s)) (events (c (store s))) → stage_at P (liftS c) s.
Proof.
  unfold stage_at, liftS, final, events.
  destruct (c (store s)) as [[r st'] evs]; simpl. done.
Qed.

Lemma stage_call {A} P ev (o : Ext A) s :
  P (self s) ev → stage_at P (liftS (call ev o)) s.
Proof.
  intros HP. apply stage_liftS. unfold call, events.
  destruct (o _ _) as [[r c] w]; simpl. by repeat constructor.
Qed.

Lemma stage_pure_call {A} P ev (r : Res A) s :
  P (self s) ev → stage_at P (pure_call ev r) s.
Proof. intros HP. split; [done|]. by repeat constructor. Qed.

Lemma stage_mono {A} P (Q : Neural_Network → Event → Prop) (c : M State A) s :
  (∀ ev, P (self s) ev → Q (self s) ev) → stage_at P c s → stage_at Q c s.
Proof. intros HPQ [? ?]. split; [done|]. eapply Forall_impl; eauto. Qed.

Lemma new_DataGenerator_events sl pre t v sh st :
  events (new_DataGenerator sl pre t v sh st) =
  [EvDataGenerator {| dg_sample_list := sl; dg_training := t;
                      dg_validation := v; dg_shuffle := sh |}].
Proof.
  unfold new_DataGenerator, bind, call, ret, events.
  by destruct (DataGenerator_init _ _ _ _) as [[[?|?] ?] ?].
Qed.

Lemma new_DataGenerator_ok sl pre t v sh st g st' evs :
  new_DataGenerator sl pre t v sh st = (Ok g, st', evs) →
  g = {| dg_sample_list := sl; dg_training := t; dg_validation := v; dg_shuffle := sh |}.
Proof.
  unfold new_DataGenerator, bind, call, ret.
  destruct (DataGenerator_init _ _ _ _) as [[[?|?] ?] ?]; congruence.
Qed.

Lemma liftS_result_ok {A} (c : M Store A) s a :
  result (liftS c s) = Ok a → ∃ st' evs, c (store s) = (Ok a, st', evs).
Proof.
  unfold liftS, result. destruct (c (store s)) as [[r st'] evs]; simpl.
  intros ->. eauto.
Qed.

Lemma fetch_infer_stage P x s :
  P (self s) (EvDataGenerator (single_generator x)) →
  P (self s) (EvPredictGenerator (single_generator x) (batch_queue_size (self s))) →
  stage_at P (fetch_infer x) s.
Proof.
  intros Hg Hp. unfold fetch_infer.
  apply stage_bind; [apply stage_gets|]. intros nn [= <-].
  change (final (gets self s)) with s.
  apply stage_bind.
  - apply stage_liftS. rewrite new_DataGenerator_events. by repeat constructor.
  - intros g Hr. apply liftS_result_ok in Hr as (st' & evs & Hr).
    apply new_DataGenerator_ok in Hr as ->.
    assert (Hs : self (final (liftS (new_DataGenerator [x] (preprocessor (self s))
                                       false false false) s)) = self s).
    { unfold liftS, final. by destruct (new_DataGenerator _ _ _ _ _ _) as [[? ?] ?]. }
    apply stage_call. by rewrite Hs.
Qed.

Lemma reassemble_stage P x raw s :
  (patchwise (preprocessor (self s)) = true → P (self s) (EvShapeCachePop x)) →
  (patchwise (preprocessor (self s)) = true →
   ∀ shp, P (self s) (EvConcat raw shp (patch_shape (preprocessor (self s)))
                        (patchwise_grid_overlap (preprocessor (self s))))) →
  stage_at P (reassemble x raw) s.
Proof.
  intros Hpop Hcat. unfold reassemble.
  apply stage_bind; [apply stage_gets|]. intros nn [= <-].
  change (final (gets self s)) with s.
  destruct (patchwise (preprocessor (self s))) eqn:Hpw; [|apply stage_ret].
  apply stage_bind.
  - apply stage_liftS. unfold shape_cache_pop, events.
    destruct (shape_cache (store s) !! x); simpl; repeat constructor; auto.
  - intros shp _. apply stage_pure_call.
    assert (Hs : self (final (liftS (shape_cache_pop x) s)) = self s).
    { unfold liftS, final. by destruct (shape_cache_pop x (store s)) as [[? ?] ?]. }
    rewrite Hs. auto.
Qed.

Lemma discretize_stage P vol s :
  P (self s) (EvArgmax vol) → stage_at P (discretize vol) s.
Proof. apply stage_pure_call. Qed.

Lemma run_subfunctions_stage P sfs v s :
  (∀ sf p, sf ∈ sfs → P (self s) (EvPostprocessing (sf_name sf) p)) →
  stage_at P (run_subfunctions sfs v) s.
Proof.
  revert v s. induction sfs as [|sf sfs IH]; intros v s HP; simpl.
  - apply stage_ret.
  - apply stage_bind.
    + apply stage_call. apply HP. by left.
    + intros r _.
      assert (Hs : self (final (liftS (call (EvPostprocessing (sf_name sf) v)
                                         (postprocessing sf v)) s)) = self s).
      { unfold liftS, final. by destruct (call _ _ _) as [[? ?] ?]. }
      apply IH. intros sf' p Hin. rewrite Hs. apply HP. by right.
Qed.

Lemma emit_stage P d seg x res s :
  (d = false → P (self s) (EvSavePrediction seg x)) →
  stage_at P (emit d seg x res) s.
Proof.
  intros HP. unfold emit. destruct d; [apply stage_ret|].
  apply stage_bind; [apply stage_gets|]. intros nn [= <-].
  change (final (gets self s)) with s.
  apply stage_bind; [by apply stage_call; auto|]. intros _ _. apply stage_ret.
Qed.

Lemma cleanup_stage P s :
  (caching (preprocessor (self s)) = true → P (self s) EvBatchCleanup) →
  stage_at P clean_up_temporary_files s.
Proof.
  intros HP. unfold clean_up_temporary_files.
  apply stage_bind; [apply stage_gets|]. intros nn [= <-].
  change (final (gets self s)) with s. fold (caching (preprocessor (self s))).
  destruct (caching (preprocessor (self s))); [|apply stage_ret].
  apply stage_call. auto.
Qed.

Lemma after_discretize_stage d x res lab s :
  stage_at (λ _, late_event) (after_discretize d x res lab) s.
Proof.
  unfold after_discretize.
  apply stage_bind; [apply stage_gets|]. intros nn [= <-].
  change (final (gets self s)) with s.
  apply stage_bind; [by apply run_subfunctions_stage|]. intros seg _.
  apply stage_bind; [by apply emit_stage|]. intros r _.
  apply stage_bind; [by apply cleanup_stage|]. intros _ _.
  apply stage_ret.
Qed.

Lemma sample_prediction_stage d x s :
  stage_at (stage_event d x) (sample_prediction x) s.
Proof.
  unfold sample_prediction.
  apply stage_bind; [apply fetch_infer_stage; constructor|]. intros raw _.
  apply stage_bind; [apply reassemble_stage; intros; by constructor|]. intros vol _.
  apply stage_bind; [apply discretize_stage; constructor|]. intros lab _.
  set (s1 := final _).
  apply stage_bind; [apply stage_gets|]. intros nn [= <-].
  change (final (gets self s1)) with s1.
  apply run_subfunctions_stage. intros. by constructor.
Qed.

Lemma sample_stages_stage d x res s :
  stage_at (stage_event d x) (sample_stages d x res) s.
Proof.
  unfold sample_stages.
  apply stage_bind; [apply sample_prediction_stage|]. intros seg _.
  apply emit_stage. intros. by constructor.
Qed.

Lemma predict_iteration_stage d x res s :
  stage_at (iteration_event d x) (predict_iteration d x res) s.
Proof.
  unfold predict_iteration.
  apply stage_bind.
  { eapply stage_mono; [|apply sample_stages_stage]. intros ev Hev. by left. }
  intros r _.
  apply stage_bind; [apply cleanup_stage; intros; by right|]. intros _ _.
  apply stage_ret.
Qed.

Lemma predict_loop_stage d sl res s :
  stage_at (predict_event d sl) (predict_loop d sl res) s.
Proof.
  revert res s. induction sl as [|x sl IH]; intros res s; simpl.
  - apply stage_ret.
  - apply stage_bind.
    + eapply stage_mono; [|apply predict_iteration_stage].
      intros ev Hev. exists x. split; [by left|done].
    + intros r _. eapply stage_mono; [|apply IH].
      intros ev (y & Hy & Hev). exists y. split; [by right|done].
Qed.

Lemma predict_stage sl d s :
  stage_at (predict_event d sl) (predict sl d) s.
Proof.
  unfold predict. apply stage_bind; [apply predict_loop_stage|].
  intros r _. apply stage_ret.
Qed.

End Stages.

(** ** Runs that return *)

Section Success.
Context {World : Type} `{!Backend (World := World)}.
Implicit Types (s : State (World := World)) (st : Store (World := World)).
Implicit Types (nn : Neural_Network (World := World)).
Implicit Types (pre : Preprocessor (World := World)).

Lemma stage_self {A} P (c : M State A) s r s' evs :
  stage_at P c s → c s = (r, s', evs) → self s' = self s.
Proof. intros [Hs _] Hc. by rewrite Hc in Hs. Qed.

Lemma stage_events {A} P (c : M State A) s r s' evs :
  stage_at P c s → c s = (r, s', evs) → Forall (P (self s)) evs.
Proof. intros [_ Hs] Hc. by rewrite Hc in Hs. Qed.

Lemma liftS_inv {A} (c : M Store A) s r s' evs :
  liftS c s = (r, s', evs) →
  ∃ st', c (store s) = (r, st', evs) ∧ s' = {| self := self s; store := st' |}.
Proof.
  unfold liftS. destruct (c (store s)) as [[r0 st'] e0].
  intros [= <- <- <-]. by exists st'.
Qed.

Lemma call_inv {A} ev (o : Ext A) st r st' evs :
  call ev o st = (r, st', evs) →
  evs = [ev] ∧ o (shape_cache st) (world st) = (r, shape_cache st', world st').
Proof.
  unfold call. destruct (o _ _) as [[r0 c] w]. by intros [= <- <- <-].
Qed.

Lemma fetch_infer_ok x s raw sA eA :
  fetch_infer x s = (Ok raw, sA, eA) →
  eA = [EvDataGenerator (single_generator x);
        EvPredictGenerator (single_generator x) (batch_queue_size (self s))] ∧
  self sA = self s.
Proof.
  intros Hrun. unfold fetch_infer in Hrun.
  apply bind_ok_inv in Hrun as (nn & s0 & e0 & e1 & Hget & Hrun & ->).
  injection Hget as <- <- <-.
  apply bind_ok_inv in Hrun as (g & s1 & e2 & e3 & Hgen & Hcall & ->).
  apply liftS_inv in Hgen as (st1 & Hgen & ->).
  pose proof (new_DataGenerator_events [x] (preprocessor (self s)) false false false
                (store s)) as Hev.
  rewrite Hgen in Hev. simpl in Hev. subst e2.
  apply new_DataGenerator_ok in Hgen as ->.
  apply liftS_inv in Hcall as (st2 & Hcall & ->).
  apply call_inv in Hcall as [-> _]. done.
Qed.


(** The three ways [reassemble] can go. *)
Lemma reassemble_run x raw s :
  let pre := preprocessor (self s) in
  reassemble x raw s =
  if patchwise pre then
    match shape_cache (store s) !! x with
    | Some shp =>
        (concat_3Dmatrices raw shp (patch_shape pre) (patchwise_grid_overlap pre),
         {| self := self s;
            store := {| shape_cache := delete x (shape_cache (store s));
                        world := world (store s) |} |},
         [EvShapeCachePop x; EvConcat raw shp (patch_shape pre) (patchwise_grid_overlap pre)])
    | None => (Raise (KeyError x), {| self := self s; store := store s |}, [EvShapeCachePop x])
    end
  else (Ok raw, s, []).
Proof.
  unfold reassemble, bind, gets, liftS, shape_cache_pop, pure_call, ret; simpl.
  destruct (patchwise (preprocessor (self s))); [|done].
  by destruct (shape_cache (store s) !! x).
Qed.

Lemma reassemble_ok x raw s vol sB eB :
  reassemble x raw s = (Ok vol, sB, eB) →
  reassembled (preprocessor (self s)) x raw vol (store s) eB (store sB) ∧ self sB = self s.
Proof.
  rewrite reassemble_run. unfold reassembled.
  destruct (patchwise (preprocessor (self s))).
  - destruct (shape_cache (store s) !! x) as [shp|] eqn:Hc; [|done].
    intros [= Hcat <- <-]. split; [|done]. by exists shp.
  - by intros [= <- <- <-].
Qed.

Lemma run_subfunctions_ok sfs lab s seg sC eC :
  run_subfunctions sfs lab s = (Ok seg, sC, eC) →
  ∃ ps, post_chain sfs lab s ps seg sC ∧ eC = post_events ps.
Proof.
  revert lab s eC. induction sfs as [|sf sfs IH]; intros lab s eC; simpl.
  - intros [= <- <- <-]. exists []. split; [constructor|done].
  - intros Hrun. apply bind_ok_inv in Hrun as (r & s1 & e1 & e2 & Hcall & Hrest & ->).
    unfold liftS, call in Hcall.
    destruct (postprocessing sf lab _ _) as [[[[v' rv]|?] c] w] eqn:Hpost; [|done].
    injection Hcall as <- <- <-.
    apply IH in Hrest as (ps & Hchain & ->).
    exists ((sf_name sf, lab) :: ps). split; [|done].
    econstructor; eauto.
Qed.

Lemma post_chain_names sfs lab s ps seg sC :
  post_chain sfs lab s ps seg sC → map fst ps = map sf_name sfs.
Proof. induction 1; simpl; [done|]. by f_equal. Qed.

Lemma post_chain_self sfs lab s ps seg sC :
  post_chain sfs lab s ps seg sC → self sC = self s.
Proof. induction 1; simpl in *; congruence. Qed.

Lemma post_chain_first sfs lab s ps seg sC :
  post_chain sfs lab s ps seg sC →
  match ps with
  | [] => sfs = [] ∧ seg = lab
  | p :: _ => p.2 = lab
  end.
Proof. by destruct 1. Qed.

Lemma emit_ok d seg x res s r s' e :
  emit d seg x res s = (Ok r, s', e) →
  r = (if d then res ++ [seg] else res) ∧ e = emit_events d seg x ∧ self s' = self s.
Proof.
  unfold emit, emit_events. destruct d.
  - by intros [= <- <- <-].
  - unfold bind, gets, liftS, call, ret; simpl.
    destruct (save_prediction _ _ _ _ _) as [[[[]|?] c] w]; simpl; [|done].
    by intros [= <- <- <-].
Qed.

Lemma cleanup_ok s u s' e :
  clean_up_temporary_files s = (Ok u, s', e) →
  e = cleanup_events (preprocessor (self s)) ∧ self s' = self s.
Proof.
  unfold clean_up_temporary_files, cleanup_events, caching, bind, gets; simpl.
  destruct (prepare_batches _ || prepare_subfunctions _).
  - unfold liftS, call. destruct (batch_cleanup _ _ _) as [[[[]|?] c] w]; simpl; [|done].
    by intros [= <- <- <-].
  - by intros [= <- <- <-].
Qed.

Lemma sample_prediction_ok x s seg sC e :
  sample_prediction x s = (Ok seg, sC, e) →
  let pre := preprocessor (self s) in
  let evA := [EvDataGenerator (single_generator x);
              EvPredictGenerator (single_generator x) (batch_queue_size (self s))] in
  ∃ raw sA vol eB sB lab ps,
    fetch_infer x s = (Ok raw, sA, evA) ∧
    reassemble x raw sA = (Ok vol, sB, eB) ∧
    reassembled pre x raw vol (store sA) eB (store sB) ∧
    np_argmax vol = Ok lab ∧
    post_chain (subfunctions pre) lab sB ps seg sC ∧
    e = evA ++ eB ++ [EvArgmax vol] ++ post_events ps ∧
    self sC = self s.
Proof.
  intros Hrun pre evA. unfold sample_prediction in Hrun.
  apply bind_ok_inv in Hrun as (raw & sA & eA & e2 & Hfetch & Hrun & ->).
  destruct (fetch_infer_ok _ _ _ _ _ Hfetch) as [-> HsA].
  apply bind_ok_inv in Hrun as (vol & sB & eB & e3 & Hre & Hrun & ->).
  destruct (reassemble_ok _ _ _ _ _ _ Hre) as [Hreass HsB].
  apply bind_ok_inv in Hrun as (lab & s3 & e4 & e5 & Hdis & Hrun & ->).
  unfold discretize, pure_call in Hdis. injection Hdis as Harg <- <-.
  apply bind_ok_inv in Hrun as (nn & s4 & e6 & e7 & Hget & Hrun & ->).
  unfold gets in Hget. injection Hget as <- <- <-.
  apply run_subfunctions_ok in Hrun as (ps & Hchain & ->).
  rewrite HsB, HsA in Hchain. rewrite HsA in Hreass.
  exists raw, sA, vol, eB, sB, lab, ps.
  repeat split; try done.
  apply post_chain_self in Hchain. congruence.
Qed.

Lemma predict_iteration_ok d x res s res1 s1 evs :
  predict_iteration d x res s = (Ok res1, s1, evs) →
  ∃ seg sC e,
    sample_prediction x s = (Ok seg, sC, e) ∧
    res1 = (if d then res ++ [seg] else res) ∧
    evs = e ++ emit_events d seg x ++ cleanup_events (preprocessor (self s)) ∧
    self s1 = self s.
Proof.
  intros Hrun. unfold predict_iteration, sample_stages in Hrun.
  apply bind_ok_inv in Hrun as (r & s2 & e1 & e2 & Hst & Hrun & ->).
  apply bind_ok_inv in Hst as (seg & sC & e & e3 & Hpred & Hemit & ->).
  apply bind_ok_inv in Hrun as (u & s3 & e4 & e5 & Hclean & Hret & ->).
  injection Hret as <- <- <-.
  pose proof (stage_self _ _ _ _ _ _ (sample_prediction_stage d x s) Hpred) as HsC.
  apply emit_ok in Hemit as (-> & -> & Hs2).
  apply cleanup_ok in Hclean as (-> & Hs3).
  exists seg, sC, e. rewrite Hs2, HsC in *.
  repeat split; try done. by rewrite app_nil_r, <- app_assoc.
Qed.

Lemma predict_loop_ok d sl res s r s' evs :
  predict_loop d sl res s = (Ok r, s', evs) →
  ∃ segs, loop_run d sl res s r s' segs ∧ evs = concat segs.
Proof.
  revert res s evs. induction sl as [|x sl IH]; intros res s evs; simpl.
  - intros [= <- <- <-]. exists []. split; [constructor|done].
  - intros Hrun. apply bind_ok_inv in Hrun as (res1 & s1 & seg & e2 & Hit & Hrest & ->).
    apply IH in Hrest as (segs & Hloop & ->).
    exists (seg :: segs). split; [|done]. econstructor; eauto.
Qed.

Lemma predict_ok sl d s r s' evs :
  predict sl d s = (Ok r, s', evs) →
  ∃ res segs, loop_run d sl [] s res s' segs ∧ evs = concat segs ∧
              r = (if d then Some res else None).
Proof.
  intros Hrun. unfold predict in Hrun.
  apply bind_ok_inv in Hrun as (res & s1 & e1 & e2 & Hloop & Hret & ->).
  injection Hret as <- <- <-.
  apply predict_loop_ok in Hloop as (segs & Hloop & ->).
  exists res, segs. by rewrite app_nil_r.
Qed.

Lemma loop_run_self d sl res s r s' segs :
  loop_run d sl res s r s' segs → self s' = self s.
Proof.
  induction 1 as [|x rest res s res1 s1 seg res' s' segs Hit _ IH]; [done|].
  rewrite IH. eapply stage_self; [apply (predict_iteration_stage d x res s)|done].
Qed.

End Success.

(** ** Cleanup and the shape cache *)

Lemma bind_assoc {S A B C} (c : M S A) (k : A → M S B) (h : B → M S C) s :
  bind (bind c k) h s = bind c (λ a, bind (k a) h) s.
Proof.
  unfold bind. destruct (c s) as [[[a|e] s1] e1]; [|done].
  destruct (k a s1) as [[[b|e] s2] e2]; [|done].
  destruct (h b s2) as [[r s3] e3]. by rewrite app_assoc.
Qed.

Lemma bind_ext {S A B} (c : M S A) (k k' : A → M S B) s :
  (∀ a s1, k a s1 = k' a s1) → bind c k s = bind c k' s.
Proof.
  intros Hk. unfold bind. destruct (c s) as [[[a|e] s1] e1]; [|done].
  by rewrite Hk.
Qed.

Lemma cleanups_none evs : Forall (λ ev, ev ≠ EvBatchCleanup) evs → cleanups evs = 0.
Proof.
  intros Hall. unfold cleanups. rewrite omap_none_Forall; [done|].
  eapply Forall_impl; [exact Hall|]. intros [] Hne; simpl; congruence.
Qed.

Lemma late_projections evs :
  Forall late_event evs →
  pops evs = [] ∧ argmaxes evs = [] ∧ concats evs = [] ∧ generators evs = [].
Proof.
  intros Hall. unfold pops, argmaxes, concats, generators.
  repeat split; apply omap_none_Forall;
    (eapply Forall_impl; [exact Hall|]); by intros [].
Qed.

Section ClaimsA.
Context {World : Type} `{!Backend (World := World)}.
Implicit Types (s : State (World := World)) (st : Store (World := World)).
Implicit Types (nn : Neural_Network (World := World)).
Implicit Types (pre : Preprocessor (World := World)).

Lemma stage_event_not_cleanup d x nn ev : stage_event d x nn ev → ev ≠ EvBatchCleanup.
Proof. by destruct 1. Qed.

Lemma sample_stages_no_cleanup d x res s : cleanups (events (sample_stages d x res s)) = 0.
Proof.
  apply cleanups_none. destruct (sample_stages_stage d x res s) as [_ Hall].
  eapply Forall_impl; [exact Hall|]. intros ev. apply stage_event_not_cleanup.
Qed.

Lemma predict_iteration_split d x res s :
  predict_iteration d x res s =
  (raw <- fetch_infer x ;; vol <- reassemble x raw ;; iteration_tail d x res vol) s.
Proof.
  unfold predict_iteration, sample_stages, sample_prediction, iteration_tail,
    after_discretize.
  rewrite bind_assoc, bind_assoc. apply bind_ext; intros raw s1.
  rewrite bind_assoc. apply bind_ext; intros vol s2.
  rewrite bind_assoc. apply bind_ext; intros lab s3.
  rewrite bind_assoc. by apply bind_ext.
Qed.

Lemma iteration_tail_events d x res vol s :
  events (iteration_tail d x res vol s) =
  EvArgmax vol :: match np_argmax vol with
                  | Ok lab => events (after_discretize d x res lab s)
                  | Raise _ => []
                  end.
Proof. unfold iteration_tail. by rewrite events_bind. Qed.


(** C1 (amended).  Cleanup (batch_cleanup) is the last step of a sample's
    iteration and is reached only when every stage of that sample, from
    fetching to emit, has succeeded.  When one of these stages fails, the
    error propagates to the caller of predict at once, with the events
    emitted so far, none of which is a call to batch_cleanup. *)
Theorem cleanup_needs_success d x rest res s :
  match sample_stages d x res s with
  | (Raise e, s', evs) =>
      predict_iteration d x res s = (Raise e, s', evs) ∧
      predict_loop d (x :: rest) res s = (Raise e, s', evs) ∧
      (res = [] → predict (x :: rest) d s = (Raise e, s', evs)) ∧
      cleanups evs = 0
  | (Ok r, s1, evs) =>
      events (predict_iteration d x res s) = evs ++ events (clean_up_temporary_files s1) ∧
      cleanups evs = 0
  end.
Proof.
  pose proof (sample_stages_no_cleanup d x res s) as Hnone.
  destruct (sample_stages d x res s) as [[[r|e] s1] evs] eqn:Hst.
  - split; [|done]. unfold predict_iteration. rewrite events_bind, Hst.
    cbn [result final events fst snd]. f_equal.
    rewrite events_bind. destruct (result _); simpl; by rewrite app_nil_r.
  - assert (Hit : predict_iteration d x res s = (Raise e, s1, evs)).
    { unfold predict_iteration. by apply bind_raise. }
    assert (Hloop : predict_loop d (x :: rest) res s = (Raise e, s1, evs)).
    { simpl. by apply bind_raise. }
    repeat split; try done.
    intros ->. unfold predict. by apply bind_raise.
Qed.


End ClaimsA.

(** ** np.argmax *)

Lemma float_le_not_nan x y : float_le x y = true → is_nan x = false ∧ is_nan y = false.
Proof. by destruct x, y. Qed.

Lemma float_le_refl x : is_nan x = false → float_le x x = true.
Proof. destruct x; simpl; try done. intros _. apply Qle_bool_iff, Qle_refl. Qed.

Lemma float_le_trans x y z : float_le x y = true → float_le y z = true → float_le x z = true.
Proof.
  destruct x, y, z; simpl; try done.
  rewrite !Qle_bool_iff. apply Qle_trans.
Qed.

(** Among numbers, [<=] is total: what is not below is strictly above. *)
Lemma float_le_total x y :
  is_nan x = false → is_nan y = false → float_le x y = false → float_lt y x = true.
Proof.
  unfold float_lt. destruct x, y; simpl; try done.
  intros _ _ Hxy. rewrite Hxy, andb_true_r. apply Qle_bool_iff.
  apply Qlt_le_weak, Qnot_le_lt. intros Hle. apply Qle_bool_iff in Hle. congruence.
Qed.

Lemma float_le_lt_trans x y z : float_le x y = true → float_lt y z = true → float_lt x z = true.
Proof.
  unfold float_lt. rewrite !andb_true_iff, !negb_true_iff. intros Hxy [Hyz Hzy].
  split; [by eapply float_le_trans|].
  destruct (float_le z x) eqn:Hzx; [|done].
  by rewrite (float_le_trans _ _ _ Hzx Hxy) in Hzy.
Qed.

Lemma float_lt_le x y : float_lt x y = true → float_le x y = true.
Proof. unfold float_lt. by rewrite andb_true_iff; intros [? _]. Qed.

(** The scan ends on the first NaN if there is one, and otherwise on the
    first position of the largest element. *)
Lemma argmax_scan_spec (ip : list float) :
  ∀ (seen : list float) (mp : float) (max_ind : nat),
    max_ind < length seen →
    nth max_ind (seen ++ ip) (Finite 0) = mp →
    (∀ j, j < length seen → is_nan (nth j (seen ++ ip) (Finite 0)) = false) →
    (∀ j, j < length seen → float_le (nth j (seen ++ ip) (Finite 0)) mp = true) →
    (∀ j, j < max_ind → float_lt (nth j (seen ++ ip) (Finite 0)) mp = true) →
    let l := seen ++ ip in
    let r := argmax_scan mp max_ind (length seen) ip in
    r < length l ∧
    (∀ j, j < r → is_nan (nth j l (Finite 0)) = false) ∧
    (is_nan (nth r l (Finite 0)) = true ∨
     ((∀ j, j < length l → is_nan (nth j l (Finite 0)) = false) ∧
      (∀ j, j < length l → float_le (nth j l (Finite 0)) (nth r l (Finite 0)) = true) ∧
      (∀ j, j < r → float_lt (nth j l (Finite 0)) (nth r l (Finite 0)) = true))).
Proof.
  induction ip as [|x ip IH]; intros seen mp mi Hmi Hmp Hnum Hmax Hfirst; cbn zeta.
  - cbn [argmax_scan]. rewrite app_nil_r in *. rewrite Hmp.
    split; [done|]. split; [intros j Hj; apply Hnum; lia|]. right. auto.
  - assert (Happ : seen ++ x :: ip = (seen ++ [x]) ++ ip) by (by rewrite <- app_assoc).
    assert (Hlen : S (length seen) = length (seen ++ [x])).
    { rewrite length_app. simpl. lia. }
    assert (Hx : nth (length seen) (seen ++ x :: ip) (Finite 0) = x).
    { rewrite app_nth2 by lia. by rewrite Nat.sub_diag. }
    assert (Hmpnum : is_nan mp = false).
    { rewrite <- Hmp. apply Hnum. done. }
    cbn [argmax_scan].
    destruct (float_le x mp) eqn:Hcmp; cbn [negb].
    + rewrite Hlen. rewrite Happ in *. apply (IH (seen ++ [x]) mp mi).
      * lia.
      * done.
      * intros j Hj. destruct (decide (j = length seen)) as [->|Hne].
        -- rewrite Hx. by apply float_le_not_nan in Hcmp as [? _].
        -- apply Hnum. lia.
      * intros j Hj. destruct (decide (j = length seen)) as [->|Hne].
        -- by rewrite Hx.
        -- apply Hmax. lia.
      * done.
    + destruct (is_nan x) eqn:Hnan.
      * split; [rewrite length_app; simpl; lia|]. split; [done|].
        left. by rewrite Hx.
      * pose proof (float_le_total x mp Hnan Hmpnum Hcmp) as Hlt.
        rewrite Hlen. rewrite Happ in *. apply (IH (seen ++ [x]) x (length seen)).
        -- lia.
        -- done.
        -- intros j Hj. destruct (decide (j = length seen)) as [->|Hne].
           ++ by rewrite Hx.
           ++ apply Hnum. lia.
        -- intros j Hj. destruct (decide (j = length seen)) as [->|Hne].
           ++ rewrite Hx. by apply float_le_refl.
           ++ eapply float_le_trans; [apply Hmax; lia|]. by apply float_lt_le.
        -- intros j Hj. eapply float_le_lt_trans; [apply Hmax; lia|done].
Qed.

Lemma argmax_spec (l : list float) :
  l ≠ [] →
  argmax l < length l ∧
  (∀ j, j < argmax l → is_nan (nth j l (Finite 0)) = false) ∧
  (is_nan (nth (argmax l) l (Finite 0)) = true ∨
   ((∀ j, j < length l → is_nan (nth j l (Finite 0)) = false) ∧
    (∀ j, j < length l → float_le (nth j l (Finite 0)) (nth (argmax l) l (Finite 0)) = true) ∧
    (∀ j, j < argmax l → float_lt (nth j l (Finite 0)) (nth (argmax l) l (Finite 0)) = true))).
Proof.
  destruct l as [|x l]; [done|]. intros _. cbn [argmax].
  destruct (is_nan x) eqn:Hnan.
  - split; [simpl; lia|]. split; [intros j Hj; lia|]. by left.
  - apply (argmax_scan_spec l [x] x 0); simpl; try done; try lia.
    + intros j Hj. by replace j with 0 by lia.
    + intros j Hj. replace j with 0 by lia. by apply float_le_refl.
Qed.

Lemma prod_list_snoc lead c : prod_list (lead ++ [c]) = prod_list lead * c.
Proof.
  unfold prod_list. induction lead as [|n lead IH]; simpl; [lia|].
  rewrite IH. lia.
Qed.

Lemma voxel_scores_length c (a : scores) v n :
  length (nd_data a) = n * c → v < n → length (voxel_scores c a v) = c.
Proof.
  intros Hlen Hv. unfold voxel_scores. rewrite length_take, length_drop. nia.
Qed.

Lemma voxel_scores_nth c (a : scores) v j :
  j < c → nth j (voxel_scores c a v) (Finite 0) = score a c v j.
Proof.
  intros Hj. unfold voxel_scores, score. rewrite nth_firstn.
  destruct (Nat.ltb_spec j c); [|lia]. apply nth_skipn.
Qed.

(** On a well-formed array with at least one axis, [np.argmax(a, axis=-1)]
    drops the last axis; for every voxel it gives the first class whose
    score is maximal when the voxel's scores are numbers, and the first
    class whose score is NaN when there is one.  A 0-dimensional array
    gives the 0-dimensional label 0. *)
Lemma np_argmax_spec (a : scores) (lab : labels) :
  well_formed a → np_argmax a = Ok lab →
  (nd_shape a = [] → lab = Ndarray [] [0]) ∧
  (nd_shape a ≠ [] →
   ∃ lead c,
     nd_shape a = lead ++ [c] ∧ 0 < c ∧ nd_shape lab = lead ∧
     length (nd_data lab) = prod_list lead ∧
     ∀ v, v < prod_list lead →
       ∃ i, nd_data lab !! v = Some i ∧ i < c ∧
            (∀ j, j < i → is_nan (score a c v j) = false) ∧
            ((∀ j, j < c → is_nan (score a c v j) = false) →
             (∀ j, j < c → float_le (score a c v j) (score a c v i) = true) ∧
             (∀ j, j < i → float_lt (score a c v j) (score a c v i) = true)) ∧
            ((∃ j, j < c ∧ is_nan (score a c v j) = true) →
             is_nan (score a c v i) = true)).
Proof.
  unfold well_formed, np_argmax. intros Hwf.
  destruct (rev (nd_shape a)) as [|c rlead] eqn:Hrev.
  { intros [= <-]. split; [done|]. intros Hne. destruct (nd_shape a); [done|].
    simpl in Hrev. by destruct (rev l). }
  assert (Hshape : nd_shape a = rev rlead ++ [c]).
  { rewrite <- (rev_involutive (nd_shape a)), Hrev. done. }
  cbn zeta. destruct (decide (c = 0)) as [|Hc]; [done|]. intros [= <-].
  split; [intros Hnil; rewrite Hnil in Hshape; by destruct (rev rlead)|]. intros _.
  exists (rev rlead), c. cbn [nd_shape nd_data].
  rewrite Hshape, prod_list_snoc in Hwf.
  split; [done|]. split; [lia|]. split; [done|].
  split; [by rewrite length_map, length_seq|].
  intros v Hv. exists (argmax (voxel_scores c a v)).
  split.
  { rewrite list_lookup_fmap, lookup_seq_lt by done. done. }
  pose proof (voxel_scores_length c a v _ Hwf Hv) as Hlen.
  destruct (argmax_spec (voxel_scores c a v)) as (Hlt & Hnum & Hcases).
  { intros Hnil. rewrite Hnil in Hlen. simpl in Hlen. lia. }
  rewrite Hlen in *. split; [done|].
  split; [intros j Hj; rewrite <- voxel_scores_nth by lia; by apply Hnum|].
  split.
  - intros Hall. destruct Hcases as [Hnan|(_ & Hmax & Hfirst)].
    { rewrite voxel_scores_nth in Hnan by done. by rewrite Hall in Hnan. }
    split.
    + intros j Hj. rewrite <- !voxel_scores_nth by done. by apply Hmax.
    + intros j Hj. rewrite <- !voxel_scores_nth by lia. by apply Hfirst.
  - intros (j & Hj & Hnan). destruct Hcases as [Hi|(Hall & _)].
    { by rewrite <- voxel_scores_nth. }
    rewrite <- voxel_scores_nth, Hall in Hnan by lia. done.
Qed.

(** ** Traces of complete runs *)

Lemma posts_post_events ps : posts (post_events ps) = ps.
Proof. induction ps as [|[n p] ps IH]; simpl; [done|]. by f_equal. Qed.

Lemma post_events_late ps : Forall late_event (post_events ps).
Proof. induction ps; simpl; by constructor. Qed.

Lemma post_events_silent ps :
  saves (post_events ps) = [] ∧ cleanups (post_events ps) = 0.
Proof. induction ps as [|p ps [IH1 IH2]]; simpl; [done|]. by split. Qed.

Lemma emit_events_projections d seg x :
  saves (emit_events d seg x) = (if d then [] else [(seg, x)]) ∧
  cleanups (emit_events d seg x) = 0 ∧ posts (emit_events d seg x) = [] ∧
  Forall late_event (emit_events d seg x).
Proof. destruct d; simpl; repeat split; by repeat constructor. Qed.

Section Traces.
Context {World : Type} `{!Backend (World := World)}.
Implicit Types (s : State (World := World)) (st : Store (World := World)).
Implicit Types (nn : Neural_Network (World := World)).
Implicit Types (pre : Preprocessor (World := World)).

Lemma cleanup_events_projections pre :
  cleanups (cleanup_events pre) = (if caching pre then 1 else 0) ∧
  saves (cleanup_events pre) = [] ∧ posts (cleanup_events pre) = [] ∧
  Forall late_event (cleanup_events pre).
Proof. unfold cleanup_events. destruct (caching pre); simpl; repeat split; by repeat constructor. Qed.

Lemma reassembled_events pre x raw vol st eB st' :
  reassembled pre x raw vol st eB st' →
  (patchwise pre = false ∧ eB = []) ∨
  (patchwise pre = true ∧
   ∃ shp, eB = [EvShapeCachePop x;
                EvConcat raw shp (patch_shape pre) (patchwise_grid_overlap pre)]).
Proof.
  unfold reassembled. destruct (patchwise pre).
  - intros (shp & _ & _ & -> & _). right. eauto.
  - intros (_ & -> & _). by left.
Qed.

(** The events of an iteration that returns, stage by stage. *)
Lemma predict_iteration_trace d x res s res1 s1 evs :
  predict_iteration d x res s = (Ok res1, s1, evs) →
  let pre := preprocessor (self s) in
  let evA := [EvDataGenerator (single_generator x);
              EvPredictGenerator (single_generator x) (batch_queue_size (self s))] in
  ∃ raw sA vol eB sB lab ps seg sC,
    fetch_infer x s = (Ok raw, sA, evA) ∧
    reassemble x raw sA = (Ok vol, sB, eB) ∧
    reassembled pre x raw vol (store sA) eB (store sB) ∧
    np_argmax vol = Ok lab ∧
    post_chain (subfunctions pre) lab sB ps seg sC ∧
    evs = evA ++ eB ++ [EvArgmax vol] ++ post_events ps ++
          emit_events d seg x ++ cleanup_events pre ∧
    res1 = (if d then res ++ [seg] else res) ∧
    self s1 = self s.
Proof.
  intros Hrun pre evA.
  apply predict_iteration_ok in Hrun as (seg & sC & e & Hpred & -> & -> & Hself).
  apply sample_prediction_ok in Hpred
    as (raw & sA & vol & eB & sB & lab & ps & Hf & Hr & Hre & Harg & Hchain & -> & _).
  exists raw, sA, vol, eB, sB, lab, ps, seg, sC.
  repeat split; try done. by rewrite <- !app_assoc.
Qed.

Lemma predict_iteration_segment d x res s res1 s1 seg :
  predict_iteration d x res s = (Ok res1, s1, seg) →
  sample_segment (preprocessor (self s)) d x seg.
Proof.
  intros Hrun. apply predict_iteration_trace in Hrun
    as (raw & sA & vol & eB & sB & lab & ps & out & sC & _ & _ & Hre & _ & _ & -> & _ & _).
  unfold sample_segment.
  destruct (emit_events_projections d out x) as (Hes & Hec & _ & Hel).
  destruct (cleanup_events_projections (preprocessor (self s))) as (_ & Hcs & _ & Hcl).
  destruct (late_projections _ (post_events_late ps)) as (Hpp & _ & _ & Hpg).
  destruct (late_projections _ Hel) as (Hep & _ & _ & Heg).
  destruct (late_projections _ Hcl) as (Hcp & _ & _ & Hcg).
  destruct (post_events_silent ps) as [Hps Hpc].
  exists ([EvDataGenerator (single_generator x);
           EvPredictGenerator (single_generator x) (batch_queue_size (self s))] ++
          eB ++ [EvArgmax vol] ++ post_events ps ++ emit_events d out x).
  split; [by rewrite <- !app_assoc|].
  apply reassembled_events in Hre as [[Hpw ->]|[Hpw (shp & ->)]]; rewrite Hpw;
    rewrite ?cleanups_app, ?generators_app, ?pops_app, ?saves_app,
      ?Hec, ?Hpc, ?Hpp, ?Hpg, ?Hep, ?Heg, ?Hcp, ?Hcg, ?Hps, ?Hes, ?Hcs;
    simpl; rewrite ?app_nil_r; repeat split; try done; by destruct d.
Qed.

Lemma loop_run_Forall2 (R : sample → list Event → Prop) d sl res0 s res s' segs :
  loop_run d sl res0 s res s' segs →
  (∀ x r0 s0 r1 s1 seg,
     self s0 = self s → predict_iteration d x r0 s0 = (Ok r1, s1, seg) → R x seg) →
  Forall2 R sl segs.
Proof.
  induction 1 as [|x rest res0 s res1 s1 seg res' s' segs Hit _ IH]; intros HR.
  - constructor.
  - constructor; [by eapply HR|]. apply IH. intros y r0 s0 r1 s2 seg' Hs0.
    apply HR. rewrite Hs0.
    eapply stage_self; [apply (predict_iteration_stage d x res0 s)|done].
Qed.

Lemma loop_run_segments d sl res0 s res s' segs :
  loop_run d sl res0 s res s' segs →
  Forall2 (sample_segment (preprocessor (self s)) d) sl segs.
Proof.
  intros Hloop. eapply loop_run_Forall2; [done|].
  intros x r0 s0 r1 s1 seg <-. apply predict_iteration_segment.
Qed.

Lemma segments_projections pre d sl segs :
  Forall2 (sample_segment pre d) sl segs →
  generators (concat segs) = map single_generator sl ∧
  pops (concat segs) = (if patchwise pre then sl else []) ∧
  map snd (saves (concat segs)) = (if d then [] else sl) ∧
  cleanups (concat segs) = (if caching pre then length sl else 0).
Proof.
  induction 1 as [|x seg sl segs (seg0 & Hseg & Hc0 & Hg & Hp & Hs) _ (IHg & IHp & IHs & IHc)];
    simpl.
  { by destruct (patchwise pre), d, (caching pre). }
  rewrite generators_app, pops_app, saves_app, map_app, cleanups_app.
  rewrite Hg, Hp, Hs, IHg, IHp, IHs, IHc.
  destruct (cleanup_events_projections pre) as (Hcc & _).
  rewrite Hseg, cleanups_app, Hc0, Hcc.
  by destruct (patchwise pre), d, (caching pre).
Qed.

(** *** Runs of the other methods *)

Lemma new_generator_inv sl pre t v sh s r s' evs :
  liftS (new_DataGenerator sl pre t v sh) s = (r, s', evs) →
  evs = [EvDataGenerator {| dg_sample_list := sl; dg_training := t;
                            dg_validation := v; dg_shuffle := sh |}] ∧
  self s' = self s ∧
  ∀ g, r = Ok g → g = {| dg_sample_list := sl; dg_training := t;
                         dg_validation := v; dg_shuffle := sh |}.
Proof.
  intros Hrun. apply liftS_inv in Hrun as (st' & Hgen & ->).
  pose proof (new_DataGenerator_events sl pre t v sh (store s)) as Hev.
  rewrite Hgen in Hev. split; [done|]. split; [done|].
  intros g ->. by eapply new_DataGenerator_ok.
Qed.

Lemma liftS_call_inv {A} ev (o : Ext A) s r s' evs :
  liftS (call ev o) s = (r, s', evs) → evs = [ev] ∧ self s' = self s.
Proof.
  intros Hrun. apply liftS_inv in Hrun as (st' & Hcall & ->).
  apply call_inv in Hcall as [-> _]. done.
Qed.

Lemma model_compile_inv m lr lo me st r st' evs :
  model_compile m lr lo me st = (r, st', evs) →
  evs = [EvCompile lr lo me] ∧
  ∃ rc, compile_check m lr lo me (shape_cache st) (world st) =
          (rc, shape_cache st', world st') ∧
        r = match rc with Ok _ => Ok (compile m lr lo me) | Raise e => Raise e end.
Proof.
  unfold model_compile. intros Hrun.
  apply bind_cases in Hrun as [(e & -> & Hcall)|(u & st1 & e1 & e2 & Hcall & Hret & ->)];
    apply call_inv in Hcall as [-> Hcheck].
  - split; [done|]. by exists (Raise e).
  - injection Hret as <- <- <-. split; [done|]. by exists (Ok u).
Qed.

Lemma fit_inv g vd cbs s r s' evs :
  model_fit_generator g vd cbs s = (r, s', evs) →
  evs = [EvFitGenerator g vd cbs (epochs (self s)) (batch_queue_size (self s))] ∧
  ∃ m, self s' = set_model (self s) m.
Proof.
  unfold model_fit_generator.
  destruct (fit_generator _ _ _ _ _ _ _ _) as [[[r0 ws] c] w].
  intros [= <- <- <-]. split; [done|]. simpl. eauto.
Qed.

Lemma cleanup_inv s r s' evs :
  clean_up_temporary_files s = (r, s', evs) →
  evs = cleanup_events (preprocessor (self s)) ∧ self s' = self s.
Proof.
  unfold clean_up_temporary_files, cleanup_events, caching, bind, gets.
  destruct (prepare_batches _ || prepare_subfunctions _).
  - destruct (liftS _ s) as [[[[]|e] s1] e1] eqn:Hcall;
      apply liftS_call_inv in Hcall as [-> Hs]; rewrite ?app_nil_r;
      by intros [= <- <- <-].
  - by intros [= <- <- <-].
Qed.

(** Each of these methods stops at the first collaborator that raises:
    its events are the first few of the complete run. *)
Lemma train_cases sl s r s' evs :
  train sl s = (r, s', evs) →
  let g := training_generator sl false (self s) in
  (∃ e, r = Raise e ∧ evs = [EvDataGenerator g]) ∨
  (∃ e, r = Raise e ∧
        evs = [EvDataGenerator g;
               EvFitGenerator g None [] (epochs (self s)) (batch_queue_size (self s))]) ∨
  evs = train_events sl (self s).
Proof.
  intros Hrun g. unfold train in Hrun.
  apply bind_cases in Hrun as [(e & _ & [=])|(nn & s0 & e0 & e1 & Hget & Hrun & ->)].
  injection Hget as <- <- <-.
  apply bind_cases in Hrun as [(e & -> & Hgen)|(g' & s1 & e2 & e3 & Hgen & Hrun & ->)];
    apply new_generator_inv in Hgen as (-> & Hs1 & Hg).
  { left. by exists e. }
  rewrite (Hg g' eq_refl) in Hrun. fold (training_generator sl false (self s)) in Hrun.
  fold g in Hrun.
  apply bind_cases in Hrun as [(e & -> & Hfit)|(h & s2 & e4 & e5 & Hfit & Hclean & ->)];
    apply fit_inv in Hfit as (-> & m & Hs2); rewrite Hs1 in *.
  { right. left. by exists e. }
  apply cleanup_inv in Hclean as (-> & _). rewrite Hs2.
  right. right. done.
Qed.

Lemma evaluate_cases ts vs cbs s r s' evs :
  evaluate ts vs cbs s = (r, s', evs) →
  let g1 := training_generator ts false (self s) in
  let g2 := training_generator vs true (self s) in
  (∃ e, r = Raise e ∧ evs = [EvDataGenerator g1]) ∨
  (∃ e, r = Raise e ∧ evs = [EvDataGenerator g1; EvDataGenerator g2]) ∨
  (∃ e, r = Raise e ∧
        evs = [EvDataGenerator g1; EvDataGenerator g2;
               EvFitGenerator g1 (Some g2) cbs (epochs (self s)) (batch_queue_size (self s))]) ∨
  evs = evaluate_events ts vs cbs (self s).
Proof.
  intros Hrun g1 g2. unfold evaluate in Hrun.
  apply bind_cases in Hrun as [(e & _ & [=])|(nn & s0 & e0 & e1 & Hget & Hrun & ->)].
  injection Hget as <- <- <-.
  apply bind_cases in Hrun as [(e & -> & Hgen)|(g1' & s1 & e2 & e3 & Hgen & Hrun & ->)];
    apply new_generator_inv in Hgen as (-> & Hs1 & Hg).
  { left. by exists e. }
  rewrite (Hg g1' eq_refl) in Hrun. fold (training_generator ts false (self s)) in Hrun.
  fold g1 in Hrun.
  apply bind_cases in Hrun as [(e & -> & Hgen)|(g2' & s2 & e4 & e5 & Hgen & Hrun & ->)];
    apply new_generator_inv in Hgen as (-> & Hs2 & Hg').
  { right. left. by exists e. }
  rewrite (Hg' g2' eq_refl) in Hrun. fold (training_generator vs true (self s)) in Hrun.
  fold g2 in Hrun.
  apply bind_cases in Hrun as [(e & -> & Hfit)|(h & s3 & e6 & e7 & Hfit & Hrun & ->)];
    apply fit_inv in Hfit as (-> & m & Hs3); rewrite Hs2, Hs1 in *.
  { right. right. left. by exists e. }
  apply bind_cases in Hrun as [(e & -> & Hclean)|(u & s4 & e8 & e9 & Hclean & Hret & ->)];
    apply cleanup_inv in Hclean as (-> & _); rewrite Hs3.
  { right. right. right. done. }
  injection Hret as <- <- <-. right. right. right.
  unfold evaluate_events. by rewrite app_nil_r.
Qed.

End Traces.

(** ** Discretize, post-processing and emit *)

Section ClaimsB.
Context {World : Type} `{!Backend (World := World)}.
Implicit Types (s : State (World := World)) (st : Store (World := World)).
Implicit Types (nn : Neural_Network (World := World)).
Implicit Types (pre : Preprocessor (World := World)).

(** C4.  Discretize is [np.argmax] along the last (class) axis: it drops
    that axis and labels every voxel with the class of maximal score, the
    lowest such class when several tie.  (That is for scores that are
    numbers; were a score of the voxel NaN, the label would be the lowest
    class with a NaN score.  An array without any axis has no class axis
    and gets the single label 0.)  In an iteration Discretize is applied
    to the reassembled volume (the raw scores when nothing is
    reassembled), after the fetching and reassembly events and before
    every post-processing, emit and cleanup event, which work on its
    result. *)
Theorem discretize_argmax d x res s raw sA eA vol sB eB lab :
  fetch_infer x s = (Ok raw, sA, eA) →
  reassemble x raw sA = (Ok vol, sB, eB) →
  well_formed vol →
  np_argmax vol = Ok lab →
  (∃ late,
      events (predict_iteration d x res s) = eA ++ eB ++ EvArgmax vol :: late ∧
      late = events (after_discretize d x res lab sB) ∧
      Forall late_event late ∧
      Forall (λ ev, ¬ late_event ev) (eA ++ eB) ∧
      argmaxes (eA ++ eB) = []) ∧
  (nd_shape vol = [] → lab = Ndarray [] [0]) ∧
  (nd_shape vol ≠ [] →
   ∃ lead c,
     nd_shape vol = lead ++ [c] ∧ 0 < c ∧ nd_shape lab = lead ∧
     length (nd_data lab) = prod_list lead ∧
     ∀ v, v < prod_list lead →
       ∃ i, nd_data lab !! v = Some i ∧ i < c ∧
            (∀ j, j < i → is_nan (score vol c v j) = false) ∧
            ((∀ j, j < c → is_nan (score vol c v j) = false) →
             (∀ j, j < c → float_le (score vol c v j) (score vol c v i) = true) ∧
             (∀ j, j < i → float_lt (score vol c v j) (score vol c v i) = true)) ∧
            ((∃ j, j < c ∧ is_nan (score vol c v j) = true) →
             is_nan (score vol c v i) = true)).
Proof.
  intros Hfetch Hre Hwf Harg. split; [|by apply np_argmax_spec].
  exists (events (after_discretize d x res lab sB)).
  split.
  { rewrite predict_iteration_split, events_bind, Hfetch.
    cbn [result final events fst snd]. f_equal.
    rewrite events_bind, Hre. cbn [result final events fst snd]. f_equal.
    by rewrite iteration_tail_events, Harg. }
  split; [done|].
  split; [apply (after_discretize_stage d x res lab sB)|].
  destruct (fetch_infer_ok _ _ _ _ _ Hfetch) as [-> HsA].
  destruct (reassemble_ok _ _ _ _ _ _ Hre) as [Hreass _].
  apply reassembled_events in Hreass as [[_ ->]|[_ (shp & ->)]];
    split; try done; repeat constructor; by intros [].
Qed.

(** C7.  In an iteration that returns, the registered post-processors are
    called once each, in registration order, between the discretization
    and the emit: the first receives the discretized volume, each later
    one the same array as its predecessor left it (the value a call
    returns is not used), and what is emitted is the array as the last
    one left it. *)
Theorem postprocessing_order d x res s res1 s1 evs :
  predict_iteration d x res s = (Ok res1, s1, evs) →
  let pre := preprocessor (self s) in
  ∃ before vol lab sB ps seg sC,
    evs = before ++ [EvArgmax vol] ++ post_events ps ++
          emit_events d seg x ++ cleanup_events pre ∧
    posts before = [] ∧ argmaxes before = [] ∧ saves before = [] ∧
    np_argmax vol = Ok lab ∧
    post_chain (subfunctions pre) lab sB ps seg sC ∧
    map fst ps = map sf_name (subfunctions pre) ∧
    posts evs = ps ∧
    res1 = (if d then res ++ [seg] else res) ∧
    saves evs = (if d then [] else [(seg, x)]).
Proof.
  intros Hrun pre. apply predict_iteration_trace in Hrun
    as (raw & sA & vol & eB & sB & lab & ps & seg & sC &
        _ & _ & Hre & Harg & Hchain & -> & -> & _).
  fold pre in Hre, Hchain |- *.
  exists ([EvDataGenerator (single_generator x);
           EvPredictGenerator (single_generator x) (batch_queue_size (self s))] ++ eB),
    vol, lab, sB, ps, seg, sC.
  destruct (emit_events_projections d seg x) as (Hes & _ & Hep & _).
  destruct (cleanup_events_projections pre) as (_ & Hcs & Hcp & _).
  destruct (post_events_silent ps) as [Hps _].
  pose proof (post_chain_names _ _ _ _ _ _ Hchain) as Hnames.
  split; [by rewrite <- !app_assoc|].
  apply reassembled_events in Hre as [[_ ->]|[_ (shp & ->)]];
    rewrite ?posts_app, ?saves_app, ?posts_post_events, ?Hes, ?Hep, ?Hcs, ?Hcp, ?Hps;
    simpl; rewrite ?app_nil_r; repeat split; done.
Qed.

Lemma stage_event_direct_no_save x nn ev :
  stage_event true x nn ev →
  match ev with EvSavePrediction _ _ => False | _ => True end.
Proof. by destruct 1. Qed.

Lemma sample_prediction_no_save x s : saves (events (sample_prediction x s)) = [].
Proof.
  apply omap_none_Forall. destruct (sample_prediction_stage true x s) as [_ Hall].
  eapply Forall_impl; [exact Hall|]. intros ev Hev.
  apply stage_event_direct_no_save in Hev. by destruct ev.
Qed.

Lemma loop_run_predictions d sl res0 s res s' segs :
  loop_run d sl res0 s res s' segs →
  ∃ vols, predictions d sl s vols s' ∧ length vols = length sl ∧
          res = (if d then res0 ++ vols else res0) ∧
          saves (concat segs) = (if d then [] else zip vols sl).
Proof.
  induction 1 as [|x rest res0 s res1 s1 seg res' s' segs Hit _ (vols & Hp & Hlen & Hres & Hs)].
  - exists []. repeat split; [constructor|..]; destruct d; by rewrite ?app_nil_r.
  - destruct (predict_iteration_ok _ _ _ _ _ _ _ Hit) as (vol & sC & e & Hpred & -> & -> & _).
    exists (vol :: vols). split; [by econstructor|]. split; [simpl; lia|].
    pose proof (sample_prediction_no_save x s) as Hns. rewrite Hpred in Hns.
    cbn [events snd] in Hns.
    destruct (emit_events_projections d vol x) as (Hes & _).
    destruct (cleanup_events_projections (preprocessor (self s))) as (_ & Hcs & _).
    cbn [concat]. rewrite !saves_app, Hns, Hes, Hcs, Hs, Hres.
    destruct d; simpl; by rewrite <- ?app_assoc.
Qed.

(** C5.  In direct-output mode predict never calls the output sink, and
    when it returns, it returns the list of the samples' predicted
    volumes, one per sample and in the order of the sample list.
    Otherwise, when it returns, it returns no value and has called
    [save_prediction] once per sample, in the order of the sample list,
    with that sample's volume and identifier. *)
Theorem predict_emit sl s :
  saves (events (predict sl true s)) = [] ∧
  ∀ d r s' evs,
    predict sl d s = (Ok r, s', evs) →
    ∃ vols,
      predictions d sl s vols s' ∧ length vols = length sl ∧
      if d then r = Some vols ∧ saves evs = []
      else r = None ∧ saves evs = zip vols sl ∧ map snd (saves evs) = sl.
Proof.
  split.
  - apply omap_none_Forall. destruct (predict_stage sl true s) as [_ Hall].
    eapply Forall_impl; [exact Hall|].
    intros ev (x & _ & [Hev|[-> _]]); [|done].
    apply stage_event_direct_no_save in Hev. by destruct ev.
  - intros d r s' evs Hrun.
    apply predict_ok in Hrun as (res & segs & Hloop & -> & ->).
    pose proof (loop_run_segments _ _ _ _ _ _ _ Hloop) as Hsegs.
    apply segments_projections in Hsegs as (_ & _ & Hsnd & _).
    apply loop_run_predictions in Hloop as (vols & Hp & Hlen & -> & Hs).
    exists vols. split; [done|]. split; [done|].
    destruct d; [done|]. by rewrite <- Hs.
Qed.

End ClaimsB.

(** ** Cleanup policy and batch generators *)

Section ClaimsC.
Context {World : Type} `{!Backend (World := World)}.
Implicit Types (s : State (World := World)) (st : Store (World := World)).
Implicit Types (nn : Neural_Network (World := World)).
Implicit Types (pre : Preprocessor (World := World)).

Lemma predict_no_cleanup sl d s :
  caching (preprocessor (self s)) = false → cleanups (events (predict sl d s)) = 0.
Proof.
  intros Hoff. apply cleanups_none. destruct (predict_stage sl d s) as [_ Hall].
  eapply Forall_impl; [exact Hall|].
  intros ev (x & _ & [Hev|[_ Hon]]); [|congruence].
  by eapply stage_event_not_cleanup.
Qed.

(** C6.  batch_cleanup is called once at the end of a train stage that
    returns, once at the end of an evaluate stage that returns, and once
    at the end of every iteration of a predict stage that returns, exactly
    when [prepare_batches] or [prepare_subfunctions] is set; when neither
    is set, no method calls it at all. *)
Theorem cleanup_policy s :
  let pre := preprocessor (self s) in
  caching pre = (prepare_batches pre || prepare_subfunctions pre) ∧
  cleanup_events pre = (if caching pre then [EvBatchCleanup] else []) ∧
  (∀ sl r s' evs,
     train sl s = (Ok r, s', evs) →
     ∃ evs0, evs = evs0 ++ cleanup_events pre ∧ cleanups evs0 = 0) ∧
  (∀ ts vs cbs r s' evs,
     evaluate ts vs cbs s = (Ok r, s', evs) →
     ∃ evs0, evs = evs0 ++ cleanup_events pre ∧ cleanups evs0 = 0) ∧
  (∀ sl d r s' evs,
     predict sl d s = (Ok r, s', evs) →
     ∃ segs, evs = concat segs ∧ Forall2 (sample_segment pre d) sl segs ∧
             cleanups evs = (if caching pre then length sl else 0)) ∧
  (caching pre = false →
   ∀ sl vs cbs d,
     cleanups (events (train sl s)) = 0 ∧
     cleanups (events (evaluate sl vs cbs s)) = 0 ∧
     cleanups (events (predict sl d s)) = 0).
Proof.
  intros pre. split; [done|]. split; [done|].
  split; [|split; [|split]].
  - intros sl r s' evs Hrun.
    apply train_cases in Hrun as [(e & [=] & _)|[(e & [=] & _)| ->]].
    eexists. split; [done|]. done.
  - intros ts vs cbs r s' evs Hrun.
    apply evaluate_cases in Hrun as [(e & [=] & _)|[(e & [=] & _)|[(e & [=] & _)| ->]]].
    eexists. split; [done|]. done.
  - intros sl d r s' evs Hrun.
    apply predict_ok in Hrun as (res & segs & Hloop & -> & _).
    apply loop_run_segments in Hloop. exists segs. split; [done|]. split; [done|].
    by apply segments_projections in Hloop as (_ & _ & _ & Hc).
  - intros Hoff sl vs cbs d. split; [|split].
    + destruct (train sl s) as [[r s'] evs] eqn:Hrun. cbn [events snd].
      apply train_cases in Hrun as [(e & _ & ->)|[(e & _ & ->)| ->]]; try done.
      unfold train_events, cleanup_events. fold pre. by rewrite Hoff.
    + destruct (evaluate sl vs cbs s) as [[r s'] evs] eqn:Hrun. cbn [events snd].
      apply evaluate_cases in Hrun
        as [(e & _ & ->)|[(e & _ & ->)|[(e & _ & ->)| ->]]]; try done.
      unfold evaluate_events, cleanup_events. fold pre. by rewrite Hoff.
    + by apply predict_no_cleanup.
Qed.

(** C9.  Every batch generator predict builds is for a single sample of
    the list, not for training or validation, and has shuffling off,
    whatever [shuffle_batches] is; a predict that returns has built one
    per sample, in list order.  train and evaluate build their generators
    over the whole lists with [shuffle_batches] as the shuffle flag. *)
Theorem predict_never_shuffles sl d s :
  Forall (λ g, ∃ x, x ∈ sl ∧ g = single_generator x ∧
               dg_sample_list g = [x] ∧ dg_shuffle g = false)
         (generators (events (predict sl d s))) ∧
  (∀ r s' evs, predict sl d s = (Ok r, s', evs) →
               generators evs = map single_generator sl) ∧
  generators (events (train sl s)) = [training_generator sl false (self s)] ∧
  (∀ vs cbs,
     generators (events (evaluate sl vs cbs s)) = [training_generator sl false (self s)] ∨
     generators (events (evaluate sl vs cbs s)) =
       [training_generator sl false (self s); training_generator vs true (self s)]) ∧
  (∀ vs cbs r s' evs,
     evaluate sl vs cbs s = (Ok r, s', evs) →
     generators evs = [training_generator sl false (self s);
                       training_generator vs true (self s)]) ∧
  (∀ l v, dg_sample_list (training_generator l v (self s)) = l ∧
          dg_shuffle (training_generator l v (self s)) = shuffle_batches (self s)).
Proof.
  split; [|split; [|split; [|split; [|split]]]].
  - destruct (predict_stage sl d s) as [_ Hall].
    eapply omap_Forall; [|exact Hall]. cbn beta.
    intros ev g (x & Hx & [Hev|[-> _]]) Hg; [|done].
    destruct Hev; try done. injection Hg as <-. by exists x.
  - intros r s' evs Hrun.
    apply predict_ok in Hrun as (res & segs & Hloop & -> & _).
    apply loop_run_segments in Hloop.
    by apply segments_projections in Hloop as (Hg & _).
  - destruct (train sl s) as [[r s'] evs] eqn:Hrun. cbn [events snd].
    apply train_cases in Hrun as [(e & _ & ->)|[(e & _ & ->)| ->]]; try done.
    unfold train_events, cleanup_events. by destruct (caching _).
  - intros vs cbs.
    destruct (evaluate sl vs cbs s) as [[r s'] evs] eqn:Hrun. cbn [events snd].
    apply evaluate_cases in Hrun
      as [(e & _ & ->)|[(e & _ & ->)|[(e & _ & ->)| ->]]]; auto.
    right. unfold evaluate_events, cleanup_events. by destruct (caching _).
  - intros vs cbs r s' evs Hrun.
    apply evaluate_cases in Hrun
      as [(e & [=] & _)|[(e & [=] & _)|[(e & [=] & _)| ->]]].
    unfold evaluate_events, cleanup_events. by destruct (caching _).
  - done.
Qed.

End ClaimsC.

(** ** Model management and construction *)

Section ClaimsD.
Context {World : Type} `{!Backend (World := World)}.
Implicit Types (s : State (World := World)) (st : Store (World := World)).
Implicit Types (nn : Neural_Network (World := World)).
Implicit Types (pre : Preprocessor (World := World)).

Lemma dump_cases p s r s' evs :
  dump p s = (r, s', evs) →
  self s' = self s ∧
  ((∃ e, r = Raise e ∧ evs = [EvOpen (model_path p) "w"]) ∨
   (∃ e, r = Raise e ∧
         evs = [EvOpen (model_path p) "w"; EvWrite (model_path p) (to_json (model (self s)));
                EvClose (model_path p)]) ∨
   evs = dump_events p (self s)).
Proof.
  unfold dump, bind, gets, try_finally. fold (model_path p) (weights_path p).
  destruct (liftS (call (EvOpen _ _) _) s) as [[[[]|e] s1] e1] eqn:Hopen;
    apply liftS_call_inv in Hopen as (-> & Hs1).
  2: { intros [= <- <- <-]. split; [done|]. left. eauto. }
  destruct (liftS (call (EvWrite _ _) _) s1) as [[rw s2] e2] eqn:Hwrite;
    apply liftS_call_inv in Hwrite as (-> & Hs2).
  destruct (liftS (call (EvClose _) _) s2) as [[rc s3] e3] eqn:Hclose;
    apply liftS_call_inv in Hclose as (-> & Hs3).
  assert (Hself : self s3 = self s) by congruence.
  destruct rc as [[]|e].
  2: { intros [= <- <- <-]. split; [done|]. right. left. eauto. }
  destruct rw as [[]|e].
  2: { intros [= <- <- <-]. split; [done|]. right. left. eauto. }
  destruct (liftS (call (EvSaveWeights _) _) s3) as [[r4 s4] e4] eqn:Hsave;
    apply liftS_call_inv in Hsave as (-> & Hs4).
  intros [= <- <- <-]. split; [congruence|]. right. right. done.
Qed.

Lemma set_model_set_model nn m m' : set_model (set_model nn m) m' = set_model nn m'.
Proof. done. Qed.

Lemma set_model_id nn : set_model nn (model nn) = nn.
Proof. by destruct nn. Qed.

Lemma load_cases p s r s' evs :
  load p s = (r, s', evs) →
  (∃ m, self s' = set_model (self s) m) ∧
  ∃ k js, evs = take k (load_events p js (self s)) ∧ (∀ a, r = Ok a → 6 ≤ k).
Proof.
  intros Hrun. unfold load in Hrun. fold (model_path p) (weights_path p) in Hrun.
  assert (Hsame : ∀ s0, self s0 = self s → ∃ m, self s0 = set_model (self s) m).
  { intros s0 ->. exists (model (self s)). by rewrite set_model_id. }
  apply bind_cases in Hrun as [(e & -> & Hopen)|(u1 & s1 & e1 & e2 & Hopen & Hrun & ->)];
    apply liftS_call_inv in Hopen as (-> & Hs1).
  { split; [by apply Hsame|]. by exists 1, ""%string. }
  apply bind_cases in Hrun as [(e & -> & Hread)|(js & s2 & e3 & e4 & Hread & Hrun & ->)];
    apply liftS_call_inv in Hread as (-> & Hs2).
  { split; [apply Hsame; congruence|]. by exists 2, ""%string. }
  apply bind_cases in Hrun as [(e & -> & Hclose)|(u2 & s3 & e5 & e6 & Hclose & Hrun & ->)];
    apply liftS_call_inv in Hclose as (-> & Hs3).
  { split; [apply Hsame; congruence|]. by exists 3, ""%string. }
  apply bind_cases in Hrun as [(e & -> & Hjson)|(m & s4 & e7 & e8 & Hjson & Hrun & ->)];
    apply liftS_call_inv in Hjson as (-> & Hs4).
  { split; [apply Hsame; congruence|]. by exists 4, js. }
  assert (Hself : self s4 = self s) by congruence.
  apply bind_cases in Hrun as [(e & _ & [=])|(u3 & s5 & e9 & e10 & Hmod & Hrun & ->)].
  injection Hmod; clear Hmod; intros; subst.
  apply bind_cases in Hrun as [(e & -> & Hlw)|(ws & s6 & e11 & e12 & Hlw & Hrun & ->)];
    apply liftS_call_inv in Hlw as (-> & Hs6); cbn [self] in Hs6.
  { split; [exists m; by rewrite Hs6, Hself|]. by exists 5, js. }
  apply bind_cases in Hrun as [(e & _ & [=])|(u4 & s7 & e13 & e14 & Hmod & Hrun & ->)].
  injection Hmod; clear Hmod; intros; subst.
  apply bind_cases in Hrun as [(e & _ & [=])|(nn & s8 & e15 & e16 & Hget & Hrun & ->)].
  injection Hget; clear Hget; intros; subst. cbn [self] in Hrun.
  apply bind_cases in Hrun as [(e & -> & Hcomp)|(m' & s9 & e17 & e18 & Hcomp & Hmod & ->)];
    apply liftS_inv in Hcomp as (st9 & Hcomp & ->);
    apply model_compile_inv in Hcomp as (-> & _).
  { cbn [self]. rewrite Hs6, Hself. split; [by eexists|].
    exists 6, js. split; [done|]. intros; lia. }
  injection Hmod; clear Hmod; intros; subst. cbn [self].
  rewrite Hs6, Hself. split; [by eexists|].
  exists 6, js. split; [done|]. intros; lia.
Qed.

(** C8.  dump with path prefix [p] touches two paths only: it opens
    [p ++ ".model.json"] for writing, writes the model's JSON descriptor
    there, and saves the weights to [p ++ ".weights.h5"].  load with the
    same prefix opens and reads the first path, and loads the weights
    from the second.  No event of either method names another path. *)
Theorem dump_load_paths p s :
  let pm := String.append p ".model.json" in
  let pw := String.append p ".weights.h5" in
  (∀ q, q ∈ artifact_paths (events (dump p s)) → q = pm ∨ q = pw) ∧
  (∀ r s' evs,
     dump p s = (Ok r, s', evs) →
     evs = [EvOpen pm "w"; EvWrite pm (to_json (model (self s))); EvClose pm;
            EvSaveWeights pw] ∧
     artifact_paths evs = [pm; pm; pm; pw]) ∧
  (∀ q, q ∈ artifact_paths (events (load p s)) → q = pm ∨ q = pw) ∧
  (∀ r s' evs,
     load p s = (Ok r, s', evs) →
     ∃ js, evs = [EvOpen pm "r"; EvRead pm; EvClose pm; EvModelFromJson js;
                  EvLoadWeights pw;
                  EvCompile (learninig_rate (self s)) (loss (self s)) (metrics (self s))] ∧
           artifact_paths evs = [pm; pm; pm; pw]).
Proof.
  intros pm pw. split; [|split; [|split]].
  - intros q. destruct (dump p s) as [[r s'] evs] eqn:Hrun. cbn [events snd].
    apply dump_cases in Hrun as (_ & [(e & _ & ->)|[(e & _ & ->)| ->]]);
      cbn; rewrite ?elem_of_cons, elem_of_nil; fold pm pw; tauto.
  - intros r s' evs Hrun.
    by apply dump_cases in Hrun as (_ & [(e & [=] & _)|[(e & [=] & _)| ->]]).
  - intros q. destruct (load p s) as [[r s'] evs] eqn:Hrun. cbn [events snd].
    apply load_cases in Hrun as (_ & k & js & -> & _).
    do 7 (destruct k as [|k]; [cbn; rewrite ?elem_of_cons, elem_of_nil; fold pm pw; tauto|]).
    destruct k; cbn; rewrite ?elem_of_cons, elem_of_nil; fold pm pw; tauto.
  - intros r s' evs Hrun.
    apply load_cases in Hrun as (_ & k & js & -> & Hk).
    specialize (Hk r eq_refl). exists js.
    do 6 (destruct k as [|k]; [lia|]). destruct k; split; reflexivity.
Qed.

End ClaimsD.

(** ** The cached starting weights *)

Section ClaimsE.
Context {World : Type} `{!Backend (World := World)}.
Implicit Types (s : State (World := World)) (st : Store (World := World)).
Implicit Types (nn : Neural_Network (World := World)).
Implicit Types (pre : Preprocessor (World := World)).






Lemma frames_try_finally {A} (c : M (State (World := World)) A) (fin : M (State (World := World)) unit) :
  frames_model (World := World) c → frames_model (World := World) fin →
  frames_model (World := World) (try_finally c fin).
Proof.
  intros Hc Hf s. unfold try_finally, final.
  destruct (Hc s) as [m Hm]. destruct (c s) as [[r s1] e1]. cbn [final fst snd] in Hm.
  destruct (Hf s1) as [m' Hm']. destruct (fin s1) as [[[[]|e] s2] e2];
    cbn [final fst snd] in *; exists m'; by rewrite Hm', Hm.
Qed.













End ClaimsE.

(** ** Construction and the patch grid *)

Section ClaimsF.
Context {World : Type} `{!Backend (World := World)}.
Implicit Types (s : State (World := World)) (st : Store (World := World)).
Implicit Types (nn : Neural_Network (World := World)).
Implicit Types (pre : Preprocessor (World := World)).

Lemma call_events {A} ev (o : Ext A) st : events (call ev o st) = [ev].
Proof. unfold call, events. by destruct (o _ _) as [[? ?] ?]. Qed.

Lemma init_events pre arch lo me ep lr bqs gpus st :
  Forall construction_event (events (__init__ pre arch lo me ep lr bqs gpus st)).
Proof.
  unfold __init__. rewrite events_bind. apply Forall_app. split.
  - destruct (three_dim _); rewrite call_events; by repeat constructor.
  - destruct (result _) as [m|e]; [|constructor].
    set (st1 := final _). rewrite events_bind. apply Forall_app. split.
    + destruct (1 <? gpus); [|constructor]. rewrite call_events. by repeat constructor.
    + destruct (result _) as [m'|e]; [|constructor].
      set (st2 := final _). rewrite events_bind. apply Forall_app. split.
      * destruct (model_compile m' lr lo me st2) as [[r st3] e3] eqn:Hcomp.
        apply model_compile_inv in Hcomp as (-> & _). by repeat constructor.
      * destruct (result _); constructor.
Qed.

Lemma bind_map_res {S A B C} (f : B → C) (c : M S A) (k : A → M S B) (k' : A → M S C)
    (s : S) :
  (∀ a (s1 : S), k' a s1 = (map_res f (result (k a s1)), final (k a s1), events (k a s1))) →
  bind c k' s = (map_res f (result (bind c k s)), final (bind c k s), events (bind c k s)).
Proof.
  intros Hk. unfold bind. destruct (c s) as [[[a|e] s1] e1]; [|done].
  rewrite Hk. by destruct (k a s1) as [[? ?] ?].
Qed.

(** C3 (amended).  No overlap check takes place at construction:
    [__init__] does not look at the patch window or the overlap.  With
    any other window and overlap, in particular with an overlap that is
    at least the window, it makes the same calls and returns or raises
    exactly as before, the object differing in the stored preprocessor
    only; and its calls are model creation, multi-GPU wrapping and
    compilation, none of which handles samples or patches. *)
Theorem overlap_not_checked_at_construction pre window overlap arch lo me ep lr bqs gpus st :
  __init__ (with_grid pre window overlap) arch lo me ep lr bqs gpus st =
    (map_res (λ nn, set_preprocessor nn (with_grid pre window overlap))
       (result (__init__ pre arch lo me ep lr bqs gpus st)),
     final (__init__ pre arch lo me ep lr bqs gpus st),
     events (__init__ pre arch lo me ep lr bqs gpus st)) ∧
  Forall construction_event (events (__init__ pre arch lo me ep lr bqs gpus st)).
Proof.
  split; [|apply init_events].
  unfold __init__. cbn [with_grid data_io].
  apply bind_map_res. intros m st1.
  apply bind_map_res. intros m' st2.
  by apply bind_map_res.
Qed.

End ClaimsF.

(** ** The statements on concrete runs *)

Module Examples.
Import Demo.

(** With caching on, a sample whose shape was never cached makes predict
    raise [KeyError] at the pop, and a sample whose inference fails makes
    it raise the collaborator's error; in neither run is batch_cleanup
    called. *)
Lemma predict_failure_without_cleanup :
  caching (preprocessor (self grid_state)) = true ∧
  result (predict (H := forgetful) ["a"%string] false grid_state) = Raise (KeyError "a") ∧
  cleanups (events (predict (H := forgetful) ["a"%string] false grid_state)) = 0 ∧
  result (predict (H := registering) ["a"%string] false (demo_state grid_preprocessor 1)) =
    Raise (ExternalError "ResourceExhaustedError") ∧
  cleanups (events (predict (H := registering) ["a"%string] false
                      (demo_state grid_preprocessor 1))) = 0.
Proof. repeat split; vm_compute; reflexivity. Qed.

Lemma cleanup_needs_success_witness :
  predict (H := forgetful) ["a"%string] false grid_state =
    (Raise (KeyError "a"), grid_state,
     [EvDataGenerator (single_generator "a");
      EvPredictGenerator (single_generator "a") 2;
      EvShapeCachePop "a"]).
Proof.
  pose proof (cleanup_needs_success (Backend0 := forgetful) false "a"%string [] []
                grid_state) as Hthm.
  assert (Hst : sample_stages (H := forgetful) false "a"%string [] grid_state =
                (Raise (KeyError "a"), grid_state,
                 [EvDataGenerator (single_generator "a");
                  EvPredictGenerator (single_generator "a") 2;
                  EvShapeCachePop "a"])) by (vm_compute; reflexivity).
  rewrite Hst in Hthm. destruct Hthm as (_ & _ & Hpredict & _).
  exact (Hpredict eq_refl).
Defined.


(** A preprocessor whose overlap equals its window: construction returns
    the object, and predict goes on to fetch the sample, run the model
    and hand that window and overlap to the reconstructor. *)
Lemma construction_accepts_full_overlap :
  let pre := demo_preprocessor "patchwise-grid" [40] [40] false in
  __init__ (H := registering) pre unet "tversky_loss" ["dice_classwise"%string] 20
    (1 # 10000) 2 1 (empty_store 0) =
    (Ok (demo_network pre), empty_store 0,
     [EvCreateModel2D [None; None; Some 1] 2;
      EvCompile (1 # 10000) "tversky_loss" ["dice_classwise"%string]]) ∧
  take 4 (events (predict (H := registering) ["a"%string] false (demo_state pre 0))) =
    [EvDataGenerator (single_generator "a");
     EvPredictGenerator (single_generator "a") 2;
     EvShapeCachePop "a";
     EvConcat patch [2; 2] [40] [40]].
Proof. split; vm_compute; reflexivity. Qed.

Lemma discretize_argmax_witness :
  ∃ sA eA vol sB eB lab late,
    fetch_infer (H := registering) "a"%string grid_state = (Ok patch, sA, eA) ∧
    reassemble (H := registering) "a"%string patch sA = (Ok vol, sB, eB) ∧
    well_formed vol ∧
    np_argmax vol = Ok lab ∧
    nd_data lab = [1; 0; 0; 1] ∧
    events (predict_iteration (H := registering) false "a"%string [] grid_state) =
      eA ++ eB ++ EvArgmax vol :: late.
Proof.
  eexists _, _, _, _, _, _.
  destruct (discretize_argmax (Backend0 := registering) false "a"%string [] grid_state
              patch _ _ _ _ _ _ eq_refl eq_refl eq_refl eq_refl)
    as ((late & Hev & _) & _).
  exists late. repeat split; try reflexivity. exact Hev.
Defined.

Lemma postprocessing_order_witness :
  ∃ res1 s1 evs,
    predict_iteration (H := registering) false "a"%string [] grid_state = (Ok res1, s1, evs) ∧
    map fst (posts evs) = ["Shift"%string; "Double"%string].
Proof.
  eexists _, _, _. split; [vm_compute; reflexivity|].
  destruct (postprocessing_order (Backend0 := registering) false "a"%string [] grid_state
              _ _ _ eq_refl)
    as (before & vol & lab & sB & ps & seg & sC & _ & _ & _ & _ & _ & _ & Hnames & Hposts & _).
  etrans; [exact (f_equal (map fst) Hposts)|exact Hnames].
Defined.

Lemma predict_emit_witness :
  ∃ vols s',
    predictions (Backend0 := registering) true ["a"%string; "b"%string] grid_state vols s' ∧
    length vols = 2.
Proof.
  destruct (predict_emit (Backend0 := registering) ["a"%string; "b"%string] grid_state)
    as [_ Hret].
  assert (Hres : result (predict (H := registering) ["a"%string; "b"%string] true grid_state) =
                 Ok (Some [Ndarray [2; 2] [4; 2; 2; 4]; Ndarray [2; 2] [4; 2; 2; 4]]))
    by (vm_compute; reflexivity).
  destruct (Hret true _ _ _ (run_ok _ _ Hres)) as (vols & Hp & Hlen & _).
  eexists vols, _. split; [exact Hp|exact Hlen].
Defined.

Lemma cleanup_policy_witness :
  cleanups (events (predict (H := registering) ["a"%string; "b"%string] false grid_state)) = 2 ∧
  cleanups (events (predict (H := registering) ["a"%string; "b"%string] false full_state)) = 0.
Proof.
  split.
  - destruct (cleanup_policy (Backend0 := registering) grid_state)
      as (_ & _ & _ & _ & Hpredict & _).
    assert (Hres : result (predict (H := registering) ["a"%string; "b"%string] false
                             grid_state) = Ok None) by (vm_compute; reflexivity).
    destruct (Hpredict ["a"%string; "b"%string] false _ _ _ (run_ok _ _ Hres))
      as (segs & _ & _ & Hc).
    exact Hc.
  - destruct (cleanup_policy (Backend0 := registering) full_state) as (_ & _ & _ & _ & _ & Hoff).
    exact (proj2 (proj2 (Hoff eq_refl ["a"%string; "b"%string] [] [] false))).
Defined.

Lemma predict_never_shuffles_witness :
  shuffle_batches (self grid_state) = true ∧
  generators (events (predict (H := registering) ["a"%string; "b"%string] false grid_state)) =
    [single_generator "a"; single_generator "b"].
Proof.
  split; [reflexivity|].
  destruct (predict_never_shuffles (Backend0 := registering) ["a"%string; "b"%string] false
              grid_state) as (_ & Hret & _).
  assert (Hres : result (predict (H := registering) ["a"%string; "b"%string] false
                           grid_state) = Ok None) by (vm_compute; reflexivity).
  exact (Hret _ _ _ (run_ok _ _ Hres)).
Defined.

Lemma dump_load_paths_witness :
  ∃ r s' evs,
    dump (H := registering) "out/unet" grid_state = (Ok r, s', evs) ∧
    artifact_paths evs =
      ["out/unet.model.json"; "out/unet.model.json"; "out/unet.model.json";
       "out/unet.weights.h5"]%string.
Proof.
  eexists _, _, _. split; [vm_compute; reflexivity|].
  destruct (dump_load_paths (Backend0 := registering) "out/unet" grid_state)
    as (_ & Hdump & _).
  exact (proj2 (Hdump _ _ _ eq_refl)).
Defined.



End Examples.

(** * Further properties of the class *)

(** ** Construction *)

Section Construction.
Context {World : Type} `{!Backend (World := World)}.
Implicit Types (s : State (World := World)) (st : Store (World := World)).
Implicit Types (nn : Neural_Network (World := World)).
Implicit Types (pre : Preprocessor (World := World)).

(** A construction that returns has built the model with
    [create_model_3D] on [(None, None, None, channels)] for
    three-dimensional data and with [create_model_2D] on
    [(None, None, channels)] otherwise, with [classes] labels; it has
    wrapped it with [multi_gpu_model] exactly when [gpu_number > 1], and
    compiled it with the given learning rate, loss and metrics.  The
    object stores the arguments, starts with [shuffle_batches] set, and
    its cached weights are those of the compiled model. *)
Theorem construction_calls pre arch lo me ep lr bqs gpus st nn st' evs :
  __init__ pre arch lo me ep lr bqs gpus st = (Ok nn, st', evs) →
  let i := interface (data_io pre) in
  evs = [if three_dim i
         then EvCreateModel3D [None; None; None; Some (channels i)] (classes i)
         else EvCreateModel2D [None; None; Some (channels i)] (classes i)] ++
        (if 1 <? gpus then [EvMultiGpuModel gpus] else []) ++
        [EvCompile lr lo me] ∧
  (In (EvMultiGpuModel gpus) evs ↔ 1 < gpus) ∧
  compiled (model nn) = Some {| adam_lr := lr; c_loss := lo; c_metrics := me |} ∧
  initialization_weights nn = get_weights (model nn) ∧
  preprocessor nn = pre ∧ loss nn = lo ∧ metrics nn = me ∧ epochs nn = ep ∧
  learninig_rate nn = lr ∧ batch_queue_size nn = bqs ∧ shuffle_batches nn = true.
Proof.
  intros Hrun i. unfold __init__ in Hrun. fold i in Hrun.
  apply bind_ok_inv in Hrun as (m1 & st1 & e1 & e2 & Hcreate & Hrun & ->).
  apply bind_ok_inv in Hrun as (m2 & st2 & e3 & e4 & Hgpu & Hrun & ->).
  apply bind_ok_inv in Hrun as (m3 & st3 & e5 & e6 & Hcomp & Hrun & ->).
  apply model_compile_inv in Hcomp as (-> & rc & _ & Hm3).
  destruct rc as [[]|e]; [|done]. injection Hm3 as ->.
  injection Hrun as <- <- <-.
  assert (He1 : e1 = [if three_dim i
                      then EvCreateModel3D [None; None; None; Some (channels i)] (classes i)
                      else EvCreateModel2D [None; None; Some (channels i)] (classes i)]).
  { destruct (three_dim i); by apply call_inv in Hcreate as [-> _]. }
  assert (He3 : e3 = if 1 <? gpus then [EvMultiGpuModel gpus] else []).
  { destruct (1 <? gpus); [by apply call_inv in Hgpu as [-> _]|by injection Hgpu]. }
  subst e1 e3. rewrite app_nil_r.
  split; [done|]. split; [|done].
  destruct (Nat.ltb_spec 1 gpus) as [Hlt|Hge]; destruct (three_dim i); simpl;
    split; intros Hin; try done; try lia; try tauto; try (decompose [or] Hin; done).
Qed.

End Construction.

(** ** The shape cache *)

Section ShapeCache.
Context {World : Type} `{!Backend (World := World)}.
Implicit Types (s : State (World := World)) (st : Store (World := World)).
Implicit Types (nn : Neural_Network (World := World)).
Implicit Types (pre : Preprocessor (World := World)).

(** In the patchwise modes, reassembling a sample removes its shape from
    the cache whether or not the reconstruction then succeeds, and leaves
    every other entry and the outside world alone; reassembling the same
    sample once more raises [KeyError] without reaching the
    reconstructor. *)
Theorem reassemble_consumes_shape x raw s :
  patchwise (preprocessor (self s)) = true →
  let sB := final (reassemble x raw s) in
  shape_cache (store sB) = delete x (shape_cache (store s)) ∧
  shape_cache (store sB) !! x = None ∧
  (∀ y, y ≠ x → shape_cache (store sB) !! y = shape_cache (store s) !! y) ∧
  world (store sB) = world (store s) ∧
  self sB = self s ∧
  ∀ raw', result (reassemble x raw' sB) = Raise (KeyError x) ∧
          events (reassemble x raw' sB) = [EvShapeCachePop x].
Proof.
  intros Hpw sB.
  assert (Hcache : shape_cache (store sB) = delete x (shape_cache (store s)) ∧
                   world (store sB) = world (store s) ∧ self sB = self s).
  { subst sB. rewrite reassemble_run, Hpw.
    destruct (shape_cache (store s) !! x) as [shp|] eqn:Hx; cbn; [done|].
    by rewrite delete_id. }
  destruct Hcache as (Hcache & Hworld & Hself).
  assert (Hnone : shape_cache (store sB) !! x = None).
  { rewrite Hcache. apply lookup_delete_eq. }
  split; [done|]. split; [done|].
  split; [by intros y Hy; rewrite Hcache, lookup_delete_ne|].
  split; [done|]. split; [done|].
  intros raw'. rewrite reassemble_run, Hself, Hpw, Hnone. done.
Qed.

(** In the patchwise modes, when a sample's scores were fetched but its
    shape is not in the cache, the iteration, and with it predict, raises
    [KeyError] for that sample right after the pop: the reconstructor,
    the discretization, the post-processors, the output sink and the
    cleanup are not called, and the store is left as fetching left it. *)
Theorem missing_shape_aborts d x rest res s raw sA eA :
  patchwise (preprocessor (self s)) = true →
  fetch_infer x s = (Ok raw, sA, eA) →
  shape_cache (store sA) !! x = None →
  ∃ s',
    predict_loop d (x :: rest) res s = (Raise (KeyError x), s', eA ++ [EvShapeCachePop x]) ∧
    self s' = self s ∧ store s' = store sA ∧
    (res = [] → predict (x :: rest) d s =
                  (Raise (KeyError x), s', eA ++ [EvShapeCachePop x])) ∧
    concats (eA ++ [EvShapeCachePop x]) = [] ∧
    argmaxes (eA ++ [EvShapeCachePop x]) = [] ∧
    posts (eA ++ [EvShapeCachePop x]) = [] ∧
    saves (eA ++ [EvShapeCachePop x]) = [] ∧
    cleanups (eA ++ [EvShapeCachePop x]) = 0.
Proof.
  intros Hpw Hfetch Hnone.
  destruct (fetch_infer_ok _ _ _ _ _ Hfetch) as [HeA HsA].
  exists {| self := self sA; store := store sA |}.
  assert (Hit : predict_iteration d x res s =
                (Raise (KeyError x), {| self := self sA; store := store sA |},
                 eA ++ [EvShapeCachePop x])).
  { rewrite predict_iteration_split. rewrite (bind_ok _ _ _ _ _ _ Hfetch).
    assert (Hre : reassemble x raw sA =
                  (Raise (KeyError x), {| self := self sA; store := store sA |},
                   [EvShapeCachePop x])).
    { by rewrite reassemble_run, HsA, Hpw, Hnone. }
    by rewrite (bind_raise _ _ _ _ _ _ Hre). }
  assert (Hloop : predict_loop d (x :: rest) res s =
                  (Raise (KeyError x), {| self := self sA; store := store sA |},
                   eA ++ [EvShapeCachePop x])).
  { simpl. by apply bind_raise. }
  split; [done|]. split; [done|]. split; [done|].
  split; [intros ->; unfold predict; by apply bind_raise|].
  by rewrite HeA.
Qed.

End ShapeCache.

(** ** Files and models *)

Section Files.
Context {World : Type} `{!Backend (World := World)}.
Implicit Types (s : State (World := World)) (st : Store (World := World)).
Implicit Types (nn : Neural_Network (World := World)).
Implicit Types (pre : Preprocessor (World := World)).

Lemma liftS_call_run {A} ev (o : Ext A) s r s' evs :
  liftS (call ev o) s = (r, s', evs) →
  evs = [ev] ∧ self s' = self s ∧
  o (shape_cache (store s)) (world (store s)) = (r, shape_cache (store s'), world (store s')).
Proof.
  intros Hrun. apply liftS_inv in Hrun as (st' & Hcall & ->).
  apply call_inv in Hcall as [-> Ho]. done.
Qed.


(** A load that returns has opened, read and closed the descriptor
    file, parsed the text it read into a new model, loaded the weights
    file into that new model, and compiled it with the object's own
    learning rate, loss and metrics, each call working on what the one
    before left; this model replaces the old one, and nothing else in
    the object changes. *)
Theorem load_installs_model p s u s' evs :
  load p s = (Ok u, s', evs) →
  let pm := String.append p ".model.json" in
  let pw := String.append p ".weights.h5" in
  ∃ js m ws c1 w1 c2 w2 c3 w3 c4 w4 c5 w5 c6 w6,
    file_open pm "r" (shape_cache (store s)) (world (store s)) = (Ok tt, c1, w1) ∧
    file_read pm c1 w1 = (Ok js, c2, w2) ∧
    file_close pm c2 w2 = (Ok tt, c3, w3) ∧
    model_from_json js c3 w3 = (Ok m, c4, w4) ∧
    load_weights m pw c4 w4 = (Ok ws, c5, w5) ∧
    compile_check (with_weights m ws) (learninig_rate (self s)) (loss (self s))
      (metrics (self s)) c5 w5 = (Ok tt, c6, w6) ∧
    store s' = {| shape_cache := c6; world := w6 |} ∧
    self s' = set_model (self s)
                (compile (with_weights m ws) (learninig_rate (self s)) (loss (self s))
                   (metrics (self s))).
Proof.
  intros Hrun pm pw. unfold load in Hrun. fold pm pw in Hrun.
  apply bind_ok_inv in Hrun as ([] & s1 & e1 & e2 & Hopen & Hrun & ->).
  apply liftS_call_run in Hopen as (_ & Hs1 & Hopen).
  apply bind_ok_inv in Hrun as (js & s2 & e3 & e4 & Hread & Hrun & ->).
  apply liftS_call_run in Hread as (_ & Hs2 & Hread).
  apply bind_ok_inv in Hrun as ([] & s3 & e5 & e6 & Hclose & Hrun & ->).
  apply liftS_call_run in Hclose as (_ & Hs3 & Hclose).
  apply bind_ok_inv in Hrun as (m & s4 & e7 & e8 & Hjson & Hrun & ->).
  apply liftS_call_run in Hjson as (_ & Hs4 & Hjson).
  apply bind_ok_inv in Hrun as (u3 & s5 & e9 & e10 & Hmod & Hrun & ->).
  injection Hmod as <- <-.
  apply bind_ok_inv in Hrun as (ws & s6 & e11 & e12 & Hlw & Hrun & ->).
  apply liftS_call_run in Hlw as (_ & Hs6 & Hlw). cbn [self store] in Hs6, Hlw.
  apply bind_ok_inv in Hrun as (u4 & s7 & e13 & e14 & Hmod & Hrun & ->).
  injection Hmod as <- <-.
  apply bind_ok_inv in Hrun as (nn & s8 & e15 & e16 & Hget & Hrun & ->).
  injection Hget as <- <- <-. cbn [self store] in Hrun.
  apply bind_ok_inv in Hrun as (m' & s9 & e17 & e18 & Hcomp & Hrun & ->).
  apply liftS_inv in Hcomp as (st9 & Hcomp & ->). cbn [self store] in Hcomp.
  apply model_compile_inv in Hcomp as (_ & rc & Hcheck & Hm').
  destruct rc as [[]|e]; [|done]. injection Hm' as ->.
  injection Hrun; clear Hrun; intros; subst. cbn [self store].
  rewrite Hs6, Hs4, Hs3, Hs2, Hs1 in Hcheck |- *. simpl in Hcheck |- *.
  exists js, m, ws. do 12 eexists.
  split; [exact Hopen|]. split; [exact Hread|]. split; [exact Hclose|].
  split; [exact Hjson|]. split; [exact Hlw|]. split; [exact Hcheck|].
  split; [by destruct st9|done].
Qed.

(** load is not atomic.  When it raises before the new model exists
    (opening, reading, closing or parsing failed) the object is
    untouched.  When loading the weights raises, the object is left with
    the freshly parsed model, which load has not compiled, in place of
    the old one.  When compiling raises, the object is left with the
    parsed model holding the loaded weights, still not compiled by load.
    Nothing else can make load raise. *)
Theorem load_failure_states p s e s' evs :
  load p s = (Raise e, s', evs) →
  let pw := String.append p ".weights.h5" in
  (length evs ≤ 4 ∧ self s' = self s) ∨
  (length evs = 5 ∧
   ∃ js c w c' w' m c'' w'',
     model_from_json js c w = (Ok m, c', w') ∧
     load_weights m pw c' w' = (Raise e, c'', w'') ∧
     self s' = set_model (self s) m) ∨
  (length evs = 6 ∧
   ∃ js c w c' w' m ws c'' w'' c3 w3,
     model_from_json js c w = (Ok m, c', w') ∧
     load_weights m pw c' w' = (Ok ws, c'', w'') ∧
     compile_check (with_weights m ws) (learninig_rate (self s)) (loss (self s))
       (metrics (self s)) c'' w'' = (Raise e, c3, w3) ∧
     self s' = set_model (self s) (with_weights m ws)).
Proof.
  intros Hrun pw. unfold load in Hrun. fold pw in Hrun.
  apply bind_cases in Hrun as [(e0 & _ & Hopen)|(u1 & s1 & e1 & e2 & Hopen & Hrun & ->)];
    apply liftS_call_run in Hopen as (-> & Hs1 & _).
  { left. split; [simpl; lia|done]. }
  apply bind_cases in Hrun as [(e0 & _ & Hread)|(js & s2 & e3 & e4 & Hread & Hrun & ->)];
    apply liftS_call_run in Hread as (-> & Hs2 & _).
  { left. split; [simpl; lia|congruence]. }
  apply bind_cases in Hrun as [(e0 & _ & Hclose)|(u2 & s3 & e5 & e6 & Hclose & Hrun & ->)];
    apply liftS_call_run in Hclose as (-> & Hs3 & _).
  { left. split; [simpl; lia|congruence]. }
  apply bind_cases in Hrun as [(e0 & _ & Hjson)|(m & s4 & e7 & e8 & Hjson & Hrun & ->)];
    apply liftS_call_run in Hjson as (-> & Hs4 & Hjson).
  { left. split; [simpl; lia|congruence]. }
  apply bind_cases in Hrun as [(e0 & _ & [=])|(u3 & s5 & e9 & e10 & Hmod & Hrun & ->)].
  injection Hmod; clear Hmod; intros; subst.
  apply bind_cases in Hrun as [(e0 & He & Hlw)|(ws & s6 & e11 & e12 & Hlw & Hrun & ->)];
    apply liftS_call_run in Hlw as (-> & Hs6 & Hlw); cbn [self store] in Hs6, Hlw.
  { injection He as ->. right; left. split; [done|].
    eexists js, _, _, _, _, m, _, _. split; [exact Hjson|]. split; [exact Hlw|].
    rewrite Hs6. congruence. }
  apply bind_cases in Hrun as [(e0 & _ & [=])|(u4 & s7 & e13 & e14 & Hmod & Hrun & ->)].
  injection Hmod; clear Hmod; intros; subst.
  apply bind_cases in Hrun as [(e0 & _ & [=])|(nn & s8 & e15 & e16 & Hget & Hrun & ->)].
  injection Hget as <- <- <-. cbn [self store] in Hrun.
  apply bind_cases in Hrun as [(e0 & He & Hcomp)|(m' & s9 & e17 & e18 & Hcomp & Hrun & ->)];
    [|by injection Hrun].
  injection He as ->.
  apply liftS_inv in Hcomp as (st9 & Hcomp & ->). cbn [self store] in Hcomp.
  apply model_compile_inv in Hcomp as (-> & rc & Hcheck & Hm').
  destruct rc as [[]|e']; [done|]. injection Hm' as ->.
  cbn [self store]. rewrite Hs6, Hs4, Hs3, Hs2, Hs1 in Hcheck |- *.
  simpl in Hcheck |- *.
  right; right. split; [done|].
  eexists js, _, _, _, _, m, ws, _, _, _, _.
  split; [exact Hjson|]. split; [exact Hlw|]. split; [exact Hcheck|]. done.
Qed.

(** An evaluate that returns has called [fit_generator] on the current
    model with the training generator, the validation generator as
    validation data, the caller's callbacks, and the object's epochs and
    queue size; it returns the history of that call, and the object
    holds the model as that call left it. *)
Theorem evaluate_returns_fit_history ts vs cbs s h s' evs :
  evaluate ts vs cbs s = (Ok h, s', evs) →
  ∃ c w m c' w',
    fit_generator (model (self s)) (training_generator ts false (self s))
      (Some (training_generator vs true (self s))) cbs (epochs (self s))
      (batch_queue_size (self s)) c w = (Ok h, m, c', w') ∧
    self s' = set_model (self s) m.
Proof.
  intros Hrun. unfold evaluate in Hrun.
  apply bind_ok_inv in Hrun as (nn & s0 & e0 & e1 & Hget & Hrun & ->).
  injection Hget as <- <- <-.
  apply bind_ok_inv in Hrun as (g1 & s1 & e2 & e3 & Hgen & Hrun & ->).
  apply new_generator_inv in Hgen as (_ & Hs1 & Hg). rewrite (Hg g1 eq_refl) in Hrun.
  apply bind_ok_inv in Hrun as (g2 & s2 & e4 & e5 & Hgen & Hrun & ->).
  apply new_generator_inv in Hgen as (_ & Hs2 & Hg'). rewrite (Hg' g2 eq_refl) in Hrun.
  apply bind_ok_inv in Hrun as (h' & s3 & e6 & e7 & Hfit & Hrun & ->).
  apply bind_ok_inv in Hrun as (u & s4 & e8 & e9 & Hclean & Hret & ->).
  injection Hret as <- <- <-.
  apply cleanup_inv in Hclean as (_ & Hs4).
  unfold model_fit_generator in Hfit.
  destruct (fit_generator _ _ _ _ _ _ _ _) as [[[r m] c'] w'] eqn:Horacle.
  injection Hfit as -> <- <-. cbn [self] in Hs4.
  rewrite Hs2, Hs1 in Horacle.
  eexists _, _, m, c', w'. split; [exact Horacle|].
  rewrite Hs4, Hs2, Hs1. done.
Qed.

End Files.

(** ** Order of processing in predict *)

Section ProcessingOrder.
Context {World : Type} `{!Backend (World := World)}.
Implicit Types (s : State (World := World)) (st : Store (World := World)).
Implicit Types (nn : Neural_Network (World := World)).
Implicit Types (pre : Preprocessor (World := World)).










End ProcessingOrder.

(** ** Failures in train and evaluate *)

Section TrainingFailures.
Context {World : Type} `{!Backend (World := World)}.
Implicit Types (s : State (World := World)) (st : Store (World := World)).
Implicit Types (nn : Neural_Network (World := World)).
Implicit Types (pre : Preprocessor (World := World)).

Lemma cleanup_raise_inv s e s' evs :
  clean_up_temporary_files s = (Raise e, s', evs) →
  caching (preprocessor (self s)) = true ∧ evs = [EvBatchCleanup] ∧
  batch_cleanup (data_io (preprocessor (self s))) (shape_cache (store s)) (world (store s)) =
    (Raise e, shape_cache (store s'), world (store s')).
Proof.
  unfold clean_up_temporary_files. intros Hrun.
  apply bind_cases in Hrun as [(e0 & _ & [=])|(nn & s0 & e0 & e1 & Hget & Hrun & ->)].
  injection Hget as <- <- <-. fold (caching (preprocessor (self s))) in Hrun.
  destruct (caching (preprocessor (self s))); [|done].
  by apply liftS_call_run in Hrun as (-> & _ & Hcall).
Qed.

(** train and evaluate have no cleanup on failure either: when one of
    them raises, batch_cleanup has not been called, unless caching is on
    and it is batch_cleanup itself, called after a training that
    returned, that raised. *)
Theorem training_failure_skips_cleanup s :
  (∀ sl e s' evs,
     train sl s = (Raise e, s', evs) →
     cleanups evs = 0 ∨
     (caching (preprocessor (self s)) = true ∧ evs = train_events sl (self s) ∧
      ∃ c w c' w', batch_cleanup (data_io (preprocessor (self s))) c w = (Raise e, c', w'))) ∧
  (∀ ts vs cbs e s' evs,
     evaluate ts vs cbs s = (Raise e, s', evs) →
     cleanups evs = 0 ∨
     (caching (preprocessor (self s)) = true ∧ evs = evaluate_events ts vs cbs (self s) ∧
      ∃ c w c' w', batch_cleanup (data_io (preprocessor (self s))) c w = (Raise e, c', w'))).
Proof.
  split.
  - intros sl e s' evs Hrun. unfold train in Hrun.
    apply bind_cases in Hrun as [(e0 & _ & [=])|(nn & s0 & e0 & e1 & Hget & Hrun & ->)].
    injection Hget as <- <- <-.
    apply bind_cases in Hrun as [(e0 & _ & Hgen)|(g & s1 & e2 & e3 & Hgen & Hrun & ->)];
      apply new_generator_inv in Hgen as (-> & Hs1 & Hg).
    { by left. }
    rewrite (Hg g eq_refl) in Hrun.
    apply bind_cases in Hrun as [(e0 & _ & Hfit)|(h & s2 & e4 & e5 & Hfit & Hclean & ->)];
      apply fit_inv in Hfit as (-> & m & Hs2); rewrite Hs1 in *.
    { by left. }
    apply cleanup_raise_inv in Hclean as (Hon & -> & Hcall). rewrite Hs2 in Hon, Hcall.
    cbn [preprocessor set_model] in Hon, Hcall.
    right. split; [done|]. split; [|by eauto 10].
    unfold train_events, cleanup_events. by rewrite Hon.
  - intros ts vs cbs e s' evs Hrun. unfold evaluate in Hrun.
    apply bind_cases in Hrun as [(e0 & _ & [=])|(nn & s0 & e0 & e1 & Hget & Hrun & ->)].
    injection Hget as <- <- <-.
    apply bind_cases in Hrun as [(e0 & _ & Hgen)|(g1 & s1 & e2 & e3 & Hgen & Hrun & ->)];
      apply new_generator_inv in Hgen as (-> & Hs1 & Hg).
    { by left. }
    rewrite (Hg g1 eq_refl) in Hrun.
    apply bind_cases in Hrun as [(e0 & _ & Hgen)|(g2 & s2 & e4 & e5 & Hgen & Hrun & ->)];
      apply new_generator_inv in Hgen as (-> & Hs2 & Hg').
    { by left. }
    rewrite (Hg' g2 eq_refl) in Hrun.
    apply bind_cases in Hrun as [(e0 & _ & Hfit)|(h & s3 & e6 & e7 & Hfit & Hrun & ->)];
      apply fit_inv in Hfit as (-> & m & Hs3); rewrite Hs2, Hs1 in *.
    { by left. }
    apply bind_cases in Hrun as [(e0 & [= <-] & Hclean)|(u & s4 & e8 & e9 & _ & [=] & _)].
    apply cleanup_raise_inv in Hclean as (Hon & -> & Hcall). rewrite Hs3 in Hon, Hcall.
    cbn [preprocessor set_model] in Hon, Hcall.
    right. split; [done|]. split; [|by eauto 10].
    unfold evaluate_events, cleanup_events. by rewrite Hon.
Qed.

End TrainingFailures.

(** ** The further properties on concrete runs *)

Module ExtraExamples.
Import Demo.

Lemma construction_calls_witness :
  ∃ nn st' evs,
    __init__ (H := registering) grid_preprocessor unet "tversky_loss"
      ["dice_classwise"%string] 20 (1 # 10000) 2 1 (empty_store 0) = (Ok nn, st', evs) ∧
    evs = [EvCreateModel2D [None; None; Some 1] 2;
           EvCompile (1 # 10000) "tversky_loss" ["dice_classwise"%string]] ∧
    ¬ In (EvMultiGpuModel 1) evs.
Proof.
  assert (Hinit : __init__ (H := registering) grid_preprocessor unet "tversky_loss"
                    ["dice_classwise"%string] 20 (1 # 10000) 2 1 (empty_store 0) =
                  (Ok (demo_network grid_preprocessor), empty_store 0,
                   [EvCreateModel2D [None; None; Some 1] 2;
                    EvCompile (1 # 10000) "tversky_loss" ["dice_classwise"%string]]))
    by (vm_compute; reflexivity).
  eexists _, _, _. split; [exact Hinit|].
  destruct (construction_calls (Backend0 := registering) _ _ _ _ _ _ _ _ _ _ _ _ Hinit)
    as (Hev & Hgpu & _).
  split; [exact Hev|]. intros Hin. apply Hgpu in Hin. lia.
Defined.

Lemma reassemble_consumes_shape_witness :
  patchwise (preprocessor (self cached_state)) = true ∧
  shape_cache (store cached_state) !! "a"%string = Some [2; 2] ∧
  shape_cache (store (final (reassemble (H := registering) "a"%string patch cached_state)))
    !! "a"%string = None.
Proof.
  split; [reflexivity|]. split; [vm_compute; reflexivity|].
  exact (proj1 (proj2 (reassemble_consumes_shape (Backend0 := registering) "a"%string patch
                         cached_state eq_refl))).
Defined.

Lemma missing_shape_aborts_witness :
  ∃ sA eA s',
    fetch_infer (H := forgetful) "a"%string grid_state = (Ok patch, sA, eA) ∧
    predict_loop (H := forgetful) false ["a"%string; "b"%string] [] grid_state =
      (Raise (KeyError "a"), s', eA ++ [EvShapeCachePop "a"]).
Proof.
  assert (Hfetch : fetch_infer (H := forgetful) "a"%string grid_state =
                   (Ok patch, grid_state,
                    [EvDataGenerator (single_generator "a");
                     EvPredictGenerator (single_generator "a") 2]))
    by (vm_compute; reflexivity).
  destruct (missing_shape_aborts (Backend0 := forgetful) false "a"%string ["b"%string] []
              grid_state patch _ _ eq_refl Hfetch eq_refl) as (s' & Hloop & _).
  eexists _, _, s'. split; [exact Hfetch|exact Hloop].
Defined.


Lemma load_installs_model_witness :
  ∃ u s' evs m ws,
    load (H := registering) "out/unet" grid_state = (Ok u, s', evs) ∧
    store s' = store grid_state ∧
    self s' = set_model (self grid_state)
                (compile (with_weights m ws) (1 # 10000) "tversky_loss"
                   ["dice_classwise"%string]).
Proof.
  assert (Hres : result (load (H := registering) "out/unet" grid_state) = Ok tt)
    by (vm_compute; reflexivity).
  destruct (load_installs_model (Backend0 := registering) _ _ _ _ _ (run_ok _ _ Hres))
    as (js & m & ws & c1 & w1 & c2 & w2 & c3 & w3 & c4 & w4 & c5 & w5 & c6 & w6 &
        Hopen & Hread & Hclose & Hjson & Hlw & Hcheck & Hstore & Hself).
  eexists tt, _, _, m, ws. split; [exact (run_ok _ _ Hres)|]. split; [|exact Hself].
  rewrite Hstore.
  vm_compute in Hopen. injection Hopen as <- <-.
  vm_compute in Hread. injection Hread as <- <- <-.
  vm_compute in Hclose. injection Hclose as <- <-.
  vm_compute in Hjson. injection Hjson as <- <- <-.
  vm_compute in Hlw. injection Hlw as <- <- <-.
  vm_compute in Hcheck. injection Hcheck as <- <-.
  reflexivity.
Defined.

Lemma load_failure_states_witness :
  ∃ s' evs m ws,
    load (H := strict) "out/unet" grid_state =
      (Raise (ValueError "unknown loss function"), s', evs) ∧
    length evs = 6 ∧
    self s' = set_model (self grid_state) (with_weights m ws).
Proof.
  assert (Hres : ∀ x, x = load (H := strict) "out/unet" grid_state →
                      x = (Raise (ValueError "unknown loss function"), final x, events x)).
  { intros x ->. vm_compute. reflexivity. }
  destruct (load_failure_states (Backend0 := strict) _ _ _ _ _ (Hres _ eq_refl))
    as [[Hlen _]|[(Hlen & _)|(Hlen & js & c & w & c' & w' & m & ws & _ & _ & _ & _ &
                               _ & _ & _ & Hself)]].
  - exfalso. vm_compute in Hlen. lia.
  - exfalso. vm_compute in Hlen. discriminate Hlen.
  - eexists _, _, m, ws. split; [exact (Hres _ eq_refl)|]. split; [exact Hlen|exact Hself].
Defined.

Lemma evaluate_returns_fit_history_witness :
  ∃ s' evs m,
    evaluate (H := registering) ["a"%string] ["b"%string] [] grid_state =
      (Ok [("loss"%string, [half])], s', evs) ∧
    self s' = set_model (self grid_state) m.
Proof.
  assert (Hres : result (evaluate (H := registering) ["a"%string] ["b"%string] [] grid_state) =
                 Ok [("loss"%string, [half])]) by (vm_compute; reflexivity).
  destruct (evaluate_returns_fit_history (Backend0 := registering) _ _ _ _ _ _ _
              (run_ok _ _ Hres)) as (c & w & m & c' & w' & _ & Hself).
  eexists _, _, m. split; [exact (run_ok _ _ Hres)|exact Hself].
Defined.

Lemma training_failure_skips_cleanup_witness :
  caching (preprocessor (self grid_state)) = true ∧
  result (train (H := brittle) ["a"%string] grid_state) =
    Raise (ExternalError "ResourceExhaustedError") ∧
  cleanups (events (train (H := brittle) ["a"%string] grid_state)) = 0.
Proof.
  split; [reflexivity|]. split; [vm_compute; reflexivity|].
  assert (Hraise : ∀ x, x = train (H := brittle) ["a"%string] grid_state →
                        x = (Raise (ExternalError "ResourceExhaustedError"),
                             final x, events x)).
  { intros x ->. vm_compute. reflexivity. }
  destruct (proj1 (training_failure_skips_cleanup (Backend0 := brittle) grid_state)
              _ _ _ _ (Hraise _ eq_refl)) as [Hnone|(_ & Hev & _)]; [exact Hnone|].
  exfalso. apply (f_equal (@length Event)) in Hev. vm_compute in Hev. discriminate Hev.
Defined.


End ExtraExamples.
